(** * r2.lib.voting: vote submission, vote commit consumers and the
      derived-listing update queues.

    A shallow embedding of [r2/lib/voting.py].  Every Python function of the
    module becomes a computation in a small state / trace / exception monad
    [M]; the collaborators the module imports (accounts, links, the vote
    model, the cache, the lock service, the AMQP transport, hooks) are either
    fields of the [World] the computations run in, or members of the
    [Collab] interface. *)

From Stdlib Require Import ZArith String List Lia.
From stdpp Require Import base option list strings gmap sets pretty.

Local Open Scope Z_scope.

(** ** Data model *)

(** Vote directions ([Vote.DIRECTIONS]): up, down, or a retracted vote. *)
Inductive Direction := DirUp | DirDown | DirNone.

#[global] Instance Direction_eq_dec : EqDecision Direction.
Proof. solve_decision. Defined.

(** The two vote queues: [vote_link_q] and [vote_comment_q]. *)
Inductive TargetKind := KLink | KComment.

(** The runtime class of a thing fetched by fullname. *)
Inductive ThingClass := LinkCls | CommentCls | OtherCls.

#[global] Instance ThingClass_eq_dec : EqDecision ThingClass.
Proof. solve_decision. Defined.

Module Account.
Record t := mk { _id : Z; _id36 : string; _fullname : string }.
End Account.

Module Thing.
(** The attributes of a [Link] / [Comment] that voting.py reads. *)
Record t := mk {
  cls : ThingClass;
  _fullname : string;
  author_id : Z;
  sr_id : Z;
  url : string;
  _spam : bool;
  _deleted : bool;
  num_votes : Z;
  vote_queue_name : string }.
End Thing.

Module Subreddit.
Record t := mk { _id : Z }.
End Subreddit.

(** Free-form extension data of a vote ([**data] in [cast_vote]); a value may
    be [None] (the [ip] entry outside a request). *)
Abbreviation Data := (gmap string (option string)).

(** The event context captured at submission time: [context], [sensitive]. *)
Abbreviation EventData := (string * string)%type.

(** The value found under [date] in a decoded payload: the integer
    [cast_vote] writes there, or a value that is not a number ([null], a
    string, a list, ...).  Numbers with a fractional part are not
    modelled. *)
Inductive DateValue := DateInt (timestamp : Z) | DateNotNumber.

Module VoteData.
(** The decoded queue payload, [json.loads(msg.body)]: a dict in which any
    key may be missing. *)
Record t := mk {
  user_id : option Z;
  thing_fullname : option string;
  direction : option Direction;
  date : option DateValue;
  data : option Data;
  event_data : option EventData }.
End VoteData.

Module Vote.
Record t := mk {
  user : Account.t;
  thing : Thing.t;
  direction : Direction;
  (** the [datetime] of the vote, kept as its POSIX timestamp *)
  date : Z;
  data : Data;
  event_data : option EventData;
  (** direction of the vote this one replaces, if there is one *)
  previous_vote : option Direction }.

Definition is_upvote (v : t) : bool := bool_decide (direction v = DirUp).
Definition is_downvote (v : t) : bool := bool_decide (direction v = DirDown).
End Vote.

(** [datetime.timedelta], normalised as Python keeps it. *)
Record timedelta := { days : Z; seconds : Z; microseconds : Z }.

(** The integer nearest to [n / d], the even one of the two when [n / d] lies
    half way between them ([0 ≤ n], [0 < d]). *)
Definition nearest_even (n d : Z) : Z :=
  let q := n / d in
  match 2 * (n `mod` d) ?= d with
  | Lt => q
  | Gt => q + 1
  | Eq => if Z.even q then q else q + 1
  end.

(** [int(n / d)] for two Python integers under true division ([0 < d]): the
    quotient is the IEEE 754 double nearest to [n / d] (53 significant bits,
    ties to even), and [int] truncates it towards zero.  [e] is the binary
    exponent of [|n| / d], so the double is [m * 2 ^ (e - 52)] with
    [2 ^ 52 ≤ m ≤ 2 ^ 53].  Quotients outside the normal range of a double
    do not occur for a [timedelta]. *)
Definition int_true_div (n d : Z) : Z :=
  let a := Z.abs n in
  if a =? 0 then 0 else
  let e := if d <=? a then Z.log2 (a / d) else - Z.log2_up ((d + a - 1) / a) in
  let s := e - 52 in
  let m := if 0 <=? s then nearest_even a (d * 2 ^ s) else nearest_even (a * 2 ^ (- s)) d in
  Z.sgn n * (if 0 <=? s then m * 2 ^ s else m / 2 ^ (- s)).

(** [int(td.total_seconds())]: [total_seconds] divides the total number of
    microseconds by [10 ** 6] with true division, so the result goes through
    a float before [int] truncates it. *)
Definition total_microseconds (td : timedelta) : Z :=
  (days td * 86400 + seconds td) * 1000000 + microseconds td.

Definition int_total_seconds (td : timedelta) : Z :=
  int_true_div (total_microseconds td) 1000000.

(** Cached queries (r2.lib.db.queries), identified by how they are built. *)
Inductive Query :=
| get_liked (user : Z)
| get_disliked (user : Z)
| get_submitted (author : Z) (sort time : string)
| get_links (sr : Z) (sort time : string)
| get_domain_links (domain : string) (sort time : string)
| get_comments (author : Z) (sort time : string).

#[global] Instance Query_eq_dec : EqDecision Query.
Proof. solve_decision. Defined.

Definition Query_encode (q : Query) : nat * (Z + string) * (string * string) :=
  match q with
  | get_liked u => (0%nat, inl u, (EmptyString, EmptyString))
  | get_disliked u => (1%nat, inl u, (EmptyString, EmptyString))
  | get_submitted a s t => (2%nat, inl a, (s, t))
  | get_links sr s t => (3%nat, inl sr, (s, t))
  | get_domain_links d s t => (4%nat, inr d, (s, t))
  | get_comments a s t => (5%nat, inl a, (s, t))
  end.

Definition Query_decode (c : nat * (Z + string) * (string * string)) : option Query :=
  match c with
  | (0%nat, inl u, _) => Some (get_liked u)
  | (1%nat, inl u, _) => Some (get_disliked u)
  | (2%nat, inl a, (s, t)) => Some (get_submitted a s t)
  | (3%nat, inl sr, (s, t)) => Some (get_links sr s t)
  | (4%nat, inr d, (s, t)) => Some (get_domain_links d s t)
  | (5%nat, inl a, (s, t)) => Some (get_comments a s t)
  | _ => None
  end.

#[global] Instance Query_countable : Countable Query.
Proof. refine (inj_countable Query_encode Query_decode _). by intros []. Defined.

(** Exceptions that can leave a function of the module. *)
Inductive Exn :=
| KeyError (key : string)
| NotFound
| TypeError
| ValueError
| OverflowError
| TimeoutExpired
| ZeroDivisionError
| CacheError.

#[global] Instance Exn_eq_dec : EqDecision Exn.
Proof. solve_decision. Defined.

(** A message body on an AMQP queue: a serialised vote on the vote queues, a
    fullname on the query queues. *)
Inductive Body :=
| BVote (vote_data : VoteData.t)
| BName (fullname : string).

(** Calls on collaborators, in the order they are made. *)
Inductive Event :=
| EvPrint (what : string)
| EvLogException (what : string)
| EvTimerStart (name : string)
| EvTimerIntermediate (name sub : string)
| EvTimerStop (name : string)
| EvTimerFlush (name : string)
| EvLockAcquire (ns key : string) (timeout : Z)
| EvLockRelease (ns key : string)
| EvCommit (user : Z) (thing : string) (d : Direction)
| EvInsert (q : Query) (items : list string)
| EvDelete (q : Query) (items : list string)
| EvAddQueries (qs : list Query) (items : list string)
| EvAddItem (queue : string) (body : Body)
| EvByFullname (names : list string)
| EvCacheSet (key : string) (value ttl : Z)
| EvTouch (fullname name : string)
| EvHook (name : string)
| EvStatsFlush (queue : string).

(** Everything the module reads or writes outside its own locals. *)
Record World := mkWorld {
  accounts : gmap Z Account.t;
  things : gmap string Thing.t;
  subreddits : gmap Z Subreddit.t;
  votes : gmap (Z * string) Vote.t;
  listings : gmap Query (gset string);
  queues : gmap string (list Body);
  gencache : gmap string (Z * Z);
  last_modified : gset (string * string);
  (** locks currently held by some other worker *)
  held_locks : gset (string * string);
  (** cached queries whose lock is held by some other worker *)
  busy_queries : gset Query;
  (** the cache backend refuses writes *)
  cache_down : bool }.

(** [g]: configuration read from [app_globals] and [live_config]. *)
Record Globals := {
  vote_queue_grace_period : timedelta;
  running_as_script : bool;
  shard_author_query_queues : bool;
  shard_subreddit_query_queues : bool;
  shard_domain_query_queues : bool;
  comment_vote_update_threshold : Z;
  comment_vote_update_period : Z }.

(** The request being served ([pylons.request]); [ip] may be absent. *)
Record Request := { ip : option string; now : Z }.

(** Pure collaborators whose code lives outside this module. *)
Class Collab := {
  (** [hooks.get_hook('vote.validate_vote_data').call_until_return]:
      [None] when no handler returns a value *)
  validate_vote_data : VoteData.t → option bool;
  (** the [vote.get_vote_data] hook, which may rewrite [data] in place *)
  get_vote_data : Data → Account.t → Thing.t → Data;
  organization_by_ips : string → option string;
  get_context_data : Request → string;
  get_sensitive_context_data : Request → string;
  (** [Vote.serialize_direction] *)
  serialize_direction : Direction → Z;
  (** [VotesByAccount.rel(cls)._last_modified_name] *)
  last_modified_name : ThingClass → string;
  (** [vote.effects.affects_score] *)
  affects_score : Vote.t → bool;
  (** [UrlParser(url).hostname] *)
  hostname : string → option string;
  (** [UrlParser(url).domain_permutations()] *)
  domain_permutations : string → list string;
  (** Python's builtin [hash] on [str] or [None] *)
  hash : option string → Z }.

(** ** The monad *)

(** How a block of statements ends: it falls through with a value, it
    executes [return], or an exception escapes it. *)
Inductive Outcome (A : Type) :=
| Normal (a : A)
| Return
| Raise (e : Exn).
Arguments Normal {A} a.
Arguments Return {A}.
Arguments Raise {A} e.

Definition M (A : Type) : Type := World → Outcome A * World * list Event.

#[global] Instance M_ret : MRet M := λ A a w, (Normal a, w, []).

#[global] Instance M_bind : MBind M := λ A B f m w,
  match m w with
  | (Normal a, w1, t1) => let '(o, w2, t2) := f a w1 in (o, w2, t1 ++ t2)
  | (Return, w1, t1) => (Return, w1, t1)
  | (Raise e, w1, t1) => (Raise e, w1, t1)
  end.

Definition emit (e : Event) : M unit := λ w, (Normal (), w, [e]).
Definition raise {A} (e : Exn) : M A := λ w, (Raise e, w, []).
Definition return_ {A} : M A := λ w, (Return, w, []).
Definition gets {A} (f : World → A) : M A := λ w, (Normal (f w), w, []).
Definition modify (f : World → World) : M unit := λ w, (Normal (), f w, []).

(** The boundary of a [def]: a [return] inside the body ends the call. *)
Definition call (body : M unit) : M unit := λ w,
  match body w with
  | (Return, w1, t1) => (Normal (), w1, t1)
  | r => r
  end.

(** [try: body except exn: handler] for one exception class. *)
Definition try_except {A} (body : M A) (exn : Exn) (handler : M A) : M A := λ w,
  match body w with
  | (Raise e, w1, t1) =>
      if decide (e = exn)
      then let '(o, w2, t2) := handler w1 in (o, w2, t1 ++ t2)
      else (Raise e, w1, t1)
  | r => r
  end.

(** [for x in xs: body x] *)
Fixpoint for_each {A} (xs : list A) (body : A → M unit) : M unit :=
  match xs with
  | [] => mret ()
  | x :: xs' => body x;; for_each xs' body
  end.

(** [d[key]] and [d.pop(key)] on the decoded payload. *)
Definition getitem {A} (field : option A) (key : string) : M A :=
  match field with
  | Some a => mret a
  | None => raise (KeyError key)
  end.

Definition print (what : string) : M unit := emit (EvPrint what).

(** ** World updates *)

Definition with_votes (f : gmap (Z * string) Vote.t → gmap (Z * string) Vote.t)
    (w : World) : World :=
  mkWorld (accounts w) (things w) (subreddits w) (f (votes w)) (listings w)
    (queues w) (gencache w) (last_modified w) (held_locks w) (busy_queries w)
    (cache_down w).

Definition with_listings (f : gmap Query (gset string) → gmap Query (gset string))
    (w : World) : World :=
  mkWorld (accounts w) (things w) (subreddits w) (votes w) (f (listings w))
    (queues w) (gencache w) (last_modified w) (held_locks w) (busy_queries w)
    (cache_down w).

Definition with_queues (f : gmap string (list Body) → gmap string (list Body))
    (w : World) : World :=
  mkWorld (accounts w) (things w) (subreddits w) (votes w) (listings w)
    (f (queues w)) (gencache w) (last_modified w) (held_locks w) (busy_queries w)
    (cache_down w).

Definition with_gencache (f : gmap string (Z * Z) → gmap string (Z * Z))
    (w : World) : World :=
  mkWorld (accounts w) (things w) (subreddits w) (votes w) (listings w)
    (queues w) (f (gencache w)) (last_modified w) (held_locks w) (busy_queries w)
    (cache_down w).

Definition with_last_modified (f : gset (string * string) → gset (string * string))
    (w : World) : World :=
  mkWorld (accounts w) (things w) (subreddits w) (votes w) (listings w)
    (queues w) (gencache w) (f (last_modified w)) (held_locks w) (busy_queries w)
    (cache_down w).

(** The members of a cached query; a query never written is empty. *)
Definition listing (w : World) (q : Query) : gset string :=
  default ∅ (listings w !! q).

(** The messages waiting on a queue. *)
Definition queue (w : World) (name : string) : list Body :=
  default [] (queues w !! name).

(** ** Collaborators with state *)

(** [Account._byID(id)] *)
Definition Account_byID (id : Z) : M Account.t :=
  a ← gets (λ w, accounts w !! id);
  match a with Some a => mret a | None => raise NotFound end.

(** [Account._byID(ids)]: the dict of the accounts found, [NotFound] when one
    is missing. *)
Fixpoint Account_byIDs (ids : list Z) : M (gmap Z Account.t) :=
  match ids with
  | [] => mret ∅
  | id :: ids' =>
      a ← Account_byID id;
      d ← Account_byIDs ids';
      mret (<[id := a]> d)
  end.

(** [Subreddit._byID(ids, stale=True)] *)
Fixpoint Subreddit_byIDs (ids : list Z) : M (gmap Z Subreddit.t) :=
  match ids with
  | [] => mret ∅
  | id :: ids' =>
      s ← gets (λ w, subreddits w !! id);
      match s with
      | Some s => d ← Subreddit_byIDs ids'; mret (<[id := s]> d)
      | None => raise NotFound
      end
  end.

(** [Link._by_fullname(name)] and [Comment._by_fullname(name)] *)
Definition Thing_by_fullname (name : string) : M Thing.t :=
  t ← gets (λ w, things w !! name);
  match t with Some t => mret t | None => raise NotFound end.

Fixpoint Things_by_fullname (names : list string) : M (list Thing.t) :=
  match names with
  | [] => mret []
  | n :: names' =>
      t ← Thing_by_fullname n;
      ts ← Things_by_fullname names';
      mret (t :: ts)
  end.

(** [Link._by_fullname(names, return_dict=False)] *)
Definition Link_by_fullnames (names : list string) : M (list Thing.t) :=
  emit (EvByFullname names);; Things_by_fullname names.

(** [d[key]] on a dict of resolved records *)
Definition dict_getitem {A} (d : gmap Z A) (key : Z) : M A :=
  match d !! key with
  | Some a => mret a
  | None => raise (KeyError (pretty key))
  end.

(** [amqp.add_item(queue_name, body)] *)
Definition amqp_add_item (queue_name : string) (body : Body) : M unit :=
  emit (EvAddItem queue_name body);;
  modify (λ w, with_queues <[queue_name := queue w queue_name ++ [body]]> w).

(** Modelled from the spec: the lock service [g.make_lock] (r2.lib.lock is
    not among the sources).  "acquire(namespace, key, timeout) -> scoped lock
    handle, releasing on scope exit even on error"; acquisition "blocks up to
    a bounded timeout, then fails as a retryable error". *)
Definition make_lock {A} (ns key : string) (timeout : Z) (body : M A) : M A := λ w,
  if decide ((ns, key) ∈ held_locks w)
  then (Raise TimeoutExpired, w, [])
  else
    let '(o, w1, t1) := body w in
    (o, w1, EvLockAcquire ns key timeout :: t1 ++ [EvLockRelease ns key]).

(** Modelled from the spec: the timers of [g.stats] (r2.lib.stats is not
    among the sources).  Timing is "observability, not correctness": a timer
    records its calls and never changes control flow. *)
Definition timer_start (name : string) : M unit := emit (EvTimerStart name).
Definition timer_intermediate (name sub : string) : M unit :=
  emit (EvTimerIntermediate name sub).
Definition timer_stop (name : string) : M unit := emit (EvTimerStop name).
Definition timer_flush (name : string) : M unit := emit (EvTimerFlush name).

(** [with g.stats.get_timer(name): body] *)
Definition with_timer {A} (name : string) (body : M A) : M A := λ w,
  let '(o, w1, t1) := body w in
  (o, w1, EvTimerStart name :: t1 ++ [EvTimerStop name]).

(** Modelled from the spec: the decorator [g.stats.amqp_processor(qname)]
    around [process_message] (r2.lib.stats is not among the sources).  For a
    message that is dropped, "timer/metrics still flush", and consumer-side
    errors are "operator-visible via logs/metrics": the decorator runs the
    function it wraps and flushes the metrics of the queue when the function
    ends, however it ends.  It changes neither the outcome nor the state. *)
Definition amqp_processor {A} (queue_name : string) (processor : M A) : M A := λ w,
  let '(o, w1, t1) := processor w in
  (o, w1, t1 ++ [EvStatsFlush queue_name]).

(** Modelled from the spec: [CachedQueryMutator.delete] and [.insert]
    (r2.models.query_cache is not among the sources).  A derived listing is a
    collection of target identifiers; deleting an item removes its target,
    and "inserting the same target twice into a listing leaves it present
    exactly once". *)
Definition mutator_delete (q : Query) (items : list string) : M unit :=
  emit (EvDelete q items);;
  modify (λ w, with_listings <[q := listing w q ∖ list_to_set items]> w).

Definition mutator_insert (q : Query) (items : list string) : M unit :=
  emit (EvInsert q items);;
  modify (λ w, with_listings <[q := listing w q ∪ list_to_set items]> w).

(** Modelled from the spec: one listing of [add_queries] (r2.lib.db.queries
    is not among the sources): "a read-modify-write insertion of the batch of
    targets" under the listing's lock, which times out when another worker
    holds it. *)
Definition add_query (items : list string) (q : Query) : M unit :=
  busy ← gets (λ w, bool_decide (q ∈ busy_queries w));
  if busy : bool then raise TimeoutExpired
  else modify (λ w, with_listings <[q := listing w q ∪ list_to_set items]> w).

(** Modelled from the spec: [add_queries(queries, insert_items)], the
    insertion "into each relevant sort-ordered derived listing (one listing
    per supported sort order)". *)
Definition add_queries (queries : list Query) (insert_items : list Thing.t) : M unit :=
  let items := Thing._fullname <$> insert_items in
  emit (EvAddQueries queries items);;
  for_each queries (add_query items).

(** Modelled from the spec: [add_to_commentstree_q] (r2.lib.db.queries is not
    among the sources), the enqueue that triggers "downstream
    recomputation". *)
Definition add_to_commentstree_q (comment : Thing.t) : M unit :=
  amqp_add_item "commentstree_q" (BName (Thing._fullname comment)).

(** Modelled from the spec: the [Vote] constructor (r2.models.vote is not
    among the sources).  Construction "fails because the target's runtime
    type is incompatible with voting"; the new value carries the "previous
    direction (if this is a change)", read from the record stored for the
    same (actor, target). *)
Definition is_votable (c : ThingClass) : bool :=
  match c with LinkCls | CommentCls => true | OtherCls => false end.

Definition Vote_new (user : Account.t) (thing : Thing.t) (direction : Direction)
    (date : Z) (data : Data) (event_data : option EventData) : M Vote.t :=
  if is_votable (Thing.cls thing) then
    prev ← gets (λ w, votes w !! (Account._id user, Thing._fullname thing));
    mret (Vote.mk user thing direction date data event_data (Vote.direction <$> prev))
  else raise TypeError.

(** Modelled from the spec: [Vote.commit], an "upsert keyed by
    actor/target". *)
Definition Vote_commit (vote : Vote.t) : M unit :=
  let user := Account._id (Vote.user vote) in
  let thing := Thing._fullname (Vote.thing vote) in
  emit (EvCommit user thing (Vote.direction vote));;
  modify (with_votes <[(user, thing) := vote]>).

(** Modelled from the spec: [Vote.is_automatic_initial_vote], "whether this
    is the actor's very first ("automatic initial") vote on this target". *)
Definition is_automatic_initial_vote (vote : Vote.t) : bool :=
  bool_decide (Vote.previous_vote vote = None).

(** [defaultdict(list)] with [d[k].append(v)].  The groups are kept in order
    of first insertion and [iteritems()] walks them in that order; CPython
    walks its hash table instead, so only statements that hold for any fixed
    order are made about the order of the groups. *)
Fixpoint dict_append {K V} `{EqDecision K} (k : K) (v : V)
    (d : list (K * list V)) : list (K * list V) :=
  match d with
  | [] => [(k, [v])]
  | (k', vs) :: d' =>
      if decide (k = k') then (k', vs ++ [v]) :: d'
      else (k', vs) :: dict_append k v d'
  end.

(** ** The module *)

(** [SORTS]: the sorts that voting can change. *)
Definition SORTS : list string := ["hot"; "top"; "controversial"]%string.

Definition prequeued_vote_key (user : Account.t) (item : Thing.t) : string :=
  "queuedvote:" +:+ Account._id36 user +:+ "_" +:+ Thing._fullname item.

(** [g.gencache.set(key, value, time=ttl)]; the write raises when the backend
    is down. *)
Definition gencache_set (key : string) (value ttl : Z) : M unit :=
  down ← gets cache_down;
  if down : bool then raise CacheError
  else
    emit (EvCacheSet key value ttl);;
    modify (with_gencache <[key := (value, ttl)]>).

(** [LastModified.touch(fullname, name)] *)
Definition LastModified_touch (fullname name : string) : M unit :=
  emit (EvTouch fullname name);;
  modify (with_last_modified (λ s, {[(fullname, name)]} ∪ s)).

(** The timestamps of [datetime.min] and [datetime.max], and the least
    magnitude of an integer that does not convert to a float (it rounds to
    [2 ** 1024]). *)
Definition min_timestamp : Z := -62135596800.
Definition max_timestamp : Z := 253402300799.
Definition float_overflow : Z := 2 ^ 1024 - 2 ^ 970.

(** What [datetime.utcfromtimestamp(value)] makes of the payload's [date]
    (CPython 2 on Linux): a value that is not a number is a [TypeError], an
    integer too large for a float an [OverflowError], a timestamp outside
    the years 1 to 9999 a [ValueError].  The [datetime] is kept as its
    timestamp. *)
Definition timestamp_to_datetime (value : DateValue) : Exn + Z :=
  match value with
  | DateNotNumber => inl TypeError
  | DateInt timestamp =>
      if float_overflow <=? Z.abs timestamp then inl OverflowError
      else if (min_timestamp <=? timestamp) && (timestamp <=? max_timestamp)
      then inr timestamp
      else inl ValueError
  end.

Definition utcfromtimestamp (value : DateValue) : M Z :=
  match timestamp_to_datetime value with
  | inl e => raise e
  | inr date => mret date
  end.

Section Voting.
Context {collab : Collab} (g : Globals).

Definition update_vote_lookups (user : Account.t) (thing : Thing.t)
    (direction : Direction) : M unit :=
  call (
    let key := prequeued_vote_key user thing in
    let grace_period := int_total_seconds (vote_queue_grace_period g) in
    let direction := serialize_direction direction in
    gencache_set key direction (grace_period + 1);;
    let rel_cls := last_modified_name (Thing.cls thing) in
    LastModified_touch (Account._fullname user) rel_cls).

Definition cast_vote (request : Request) (user : Account.t) (thing : Thing.t)
    (direction : Direction) (data : Data) : M unit :=
  call (
    update_vote_lookups user thing direction;;
    let data := <["ip" := ip request]> data in
    let data :=
      match ip request with
      | Some addr => <["org" := organization_by_ips addr]> data
      | None => data
      end in
    emit (EvHook "vote.get_vote_data");;
    let data := get_vote_data data user thing in
    let event_data :=
      if running_as_script g then None
      else Some (get_context_data request, get_sensitive_context_data request) in
    let vote_data :=
      VoteData.mk (Some (Account._id user)) (Some (Thing._fullname thing))
        (Some direction) (Some (DateInt (now request))) (Some data) event_data in
    amqp_add_item (Thing.vote_queue_name thing) (BVote vote_data)).

Definition update_user_liked (vote : Vote.t) : M unit :=
  call (
    let user := Account._id (Vote.user vote) in
    let target := Thing._fullname (Vote.thing vote) in
    match Vote.previous_vote vote with
    | Some previous_vote =>
        if bool_decide (previous_vote = DirUp)
        then mutator_delete (get_liked user) [target]
        else if bool_decide (previous_vote = DirDown)
        then mutator_delete (get_disliked user) [target]
        else mret ()
    | None => mret ()
    end;;
    if Vote.is_upvote vote then mutator_insert (get_liked user) [target]
    else if Vote.is_downvote vote then mutator_insert (get_disliked user) [target]
    else mret ()).

(** The queue [add_to_author_query_q] picks for a link. *)
Definition author_queue_name (link : Thing.t) : string :=
  if shard_author_query_queues g then
    let author_shard := Thing.author_id link `mod` 10 in
    "author_query_" +:+ pretty author_shard +:+ "_q"
  else "author_query_q".

Definition add_to_author_query_q (link : Thing.t) : M unit :=
  call (
    let queue_name := author_queue_name link in
    amqp_add_item queue_name (BName (Thing._fullname link))).

(** The queue [add_to_subreddit_query_q] picks for a link. *)
Definition subreddit_queue_name (link : Thing.t) : string :=
  if shard_subreddit_query_queues g then
    let subreddit_shard := Thing.sr_id link `mod` 10 in
    "subreddit_query_" +:+ pretty subreddit_shard +:+ "_q"
  else "subreddit_query_q".

Definition add_to_subreddit_query_q (link : Thing.t) : M unit :=
  call (
    let queue_name := subreddit_queue_name link in
    amqp_add_item queue_name (BName (Thing._fullname link))).

(** The queue [add_to_domain_query_q] picks for a URL. *)
Definition domain_queue_name (url : string) : string :=
  if shard_domain_query_queues g then
    let domain_shard := hash (hostname url) `mod` 10 in
    "domain_query_" +:+ pretty domain_shard +:+ "_q"
  else "domain_query_q".

Definition add_to_domain_query_q (link : Thing.t) : M unit :=
  call (
    let parsed := Thing.url link in
    match domain_permutations parsed with
    | [] => return_   (* no valid domains found *)
    | _ :: _ =>
        let queue_name := domain_queue_name parsed in
        amqp_add_item queue_name (BName (Thing._fullname link))
    end).

(** [Vote(user, thing, direction=vote_data["direction"],
    date=datetime.utcfromtimestamp(vote_data["date"]), ...)] with its
    arguments evaluated left to right; the [except TypeError] clause around it
    logs and returns. *)
Definition build_vote (user : Account.t) (thing : Thing.t)
    (vote_data : VoteData.t) : M Vote.t :=
  try_except
    (direction ← getitem (VoteData.direction vote_data) "direction";
     value ← getitem (VoteData.date vote_data) "date";
     date ← utcfromtimestamp value;
     data ← getitem (VoteData.data vote_data) "data";
     Vote_new user thing direction date data (VoteData.event_data vote_data))
    TypeError
    (emit (EvLogException "Invalid type");; return_).

(** The lock key of [consume_link_vote_queue]:
    ["vote-%s-%s" % (user._id36, link._fullname)]. *)
Definition vote_lock_key (user : Account.t) (link : Thing.t) : string :=
  "vote-" +:+ Account._id36 user +:+ "-" +:+ Thing._fullname link.

(** The fan-out decision of [consume_link_vote_queue], taken once the lock
    is released: [vote_valid], [link_valid] and the three enqueues. *)
Definition link_fan_out (vote : Vote.t) (link : Thing.t) : M unit :=
  let vote_valid := is_automatic_initial_vote vote || affects_score vote in
  let link_valid := negb (Thing._spam link || Thing._deleted link) in
  if vote_valid && link_valid then
    add_to_author_query_q link;;
    add_to_subreddit_query_q link;;
    add_to_domain_query_q link
  else mret ().

(** [process_message] of [consume_link_vote_queue]: the body of the function
    as written.  The [g.stats.amqp_processor] decorator is applied to it in
    [decorated_process_message] below. *)
Definition link_process_message (msg : VoteData.t) : M unit :=
  call (
    let vote_data := msg in
    match validate_vote_data vote_data with
    | Some false => print "Ignoring invalid vote";; return_
    | _ =>
        let timer := "link_vote_processor"%string in
        timer_start timer;;
        user_id ← getitem (VoteData.user_id vote_data) "user_id";
        user ← Account_byID user_id;
        thing_fullname ← getitem (VoteData.thing_fullname vote_data) "thing_fullname";
        link ← Thing_by_fullname thing_fullname;
        let lock_key := vote_lock_key user link in
        vote ← make_lock "voting" lock_key 5 (
          print "Processing vote";;
          vote ← build_vote user link vote_data;
          Vote_commit vote;;
          timer_intermediate timer "create_vote_object";;
          update_user_liked vote;;
          timer_intermediate timer "voter_likes";;
          mret vote);
        link_fan_out vote link;;
        timer_stop timer;;
        timer_flush timer
    end).

(** [num_votes <= update_threshold or num_votes % update_period == 0]: the
    modulo is evaluated only when the comparison fails, and raises on a
    zero period. *)
Definition should_update_score (num_votes update_threshold update_period : Z) : M bool :=
  if num_votes <=? update_threshold then mret true
  else if update_period =? 0 then raise ZeroDivisionError
  else mret (num_votes `mod` update_period =? 0).

(** The fan-out decision of [consume_comment_vote_queue]: [vote_valid],
    [comment_valid], the author listing update and the periodic score
    update. *)
Definition comment_fan_out (timer : string) (vote : Vote.t) (comment : Thing.t) : M unit :=
  let vote_valid := is_automatic_initial_vote vote || affects_score vote in
  let comment_valid := negb (Thing._spam comment || Thing._deleted comment) in
  if vote_valid && comment_valid then
    author ← Account_byID (Thing.author_id comment);
    add_queries
      ((λ sort, get_comments (Account._id author) sort "all") <$> SORTS)
      [comment];;
    timer_intermediate timer "author_queries";;
    let update_threshold := comment_vote_update_threshold g in
    let update_period := comment_vote_update_period g in
    let num_votes := Thing.num_votes comment in
    update ← should_update_score num_votes update_threshold update_period;
    if update : bool then add_to_commentstree_q comment else mret ()
  else mret ().

(** [process_message] of [consume_comment_vote_queue] (the body of the
    function, as for the link consumer) *)
Definition comment_process_message (msg : VoteData.t) : M unit :=
  call (
    let vote_data := msg in
    match validate_vote_data vote_data with
    | Some false => print "Ignoring invalid vote";; return_
    | _ =>
        let timer := "comment_vote_processor"%string in
        timer_start timer;;
        user_id ← getitem (VoteData.user_id vote_data) "user_id";
        user ← Account_byID user_id;
        thing_fullname ← getitem (VoteData.thing_fullname vote_data) "thing_fullname";
        comment ← Thing_by_fullname thing_fullname;
        print "Processing vote";;
        vote ← build_vote user comment vote_data;
        Vote_commit vote;;
        timer_intermediate timer "create_vote_object";;
        comment_fan_out timer vote comment;;
        timer_stop timer;;
        timer_flush timer
    end).

(** [links_by_author_id], [links_by_sr_id]: one group per key. *)
Definition group_by_key (key : Thing.t → Z) (links : list Thing.t)
    : list (Z * list Thing.t) :=
  foldl (λ d link, dict_append (key link) link d) [] links.

(** [links_by_domain]: a link joins the group of every permutation of its
    domain. *)
Definition group_by_domain (links : list Thing.t) : list (string * list Thing.t) :=
  foldl (λ d link,
           foldl (λ d domain, dict_append domain link d) d
             (domain_permutations (Thing.url link)))
    [] links.

(** The body of the loop over [links_by_author_id.iteritems()]. *)
Definition author_group (authors_by_id : gmap Z Account.t)
    (group : Z * list Thing.t) : M unit :=
  let '(author_id, links) := group in
  with_timer "link_vote_processor.author_queries" (
    author ← dict_getitem authors_by_id author_id;
    add_queries
      ((λ sort, get_submitted (Account._id author) sort "all") <$> SORTS)
      links).

(** [process_message] of [consume_author_query_queue] *)
Definition author_process_message (msgs : list string) : M unit :=
  call (
    let link_names : gset string := list_to_set msgs in
    links ← Link_by_fullnames (elements link_names);
    print "Processing";;
    let links_by_author_id := group_by_key Thing.author_id links in
    authors_by_id ← Account_byIDs (links_by_author_id.*1);
    for_each links_by_author_id (author_group authors_by_id)).

(** The body of the loop over [links_by_sr_id.iteritems()]. *)
Definition subreddit_group (srs_by_id : gmap Z Subreddit.t)
    (group : Z * list Thing.t) : M unit :=
  let '(sr_id, links) := group in
  with_timer "link_vote_processor.subreddit_queries" (
    sr ← dict_getitem srs_by_id sr_id;
    add_queries
      ((λ sort, get_links (Subreddit._id sr) sort "all") <$> SORTS)
      links).

(** [process_message] of [consume_subreddit_query_queue] *)
Definition subreddit_process_message (msgs : list string) : M unit :=
  call (
    let link_names : gset string := list_to_set msgs in
    links ← Link_by_fullnames (elements link_names);
    print "Processing";;
    let links_by_sr_id := group_by_key Thing.sr_id links in
    srs_by_id ← Subreddit_byIDs (links_by_sr_id.*1);
    for_each links_by_sr_id (subreddit_group srs_by_id)).

(** The body of the loop over [links_by_domain.iteritems()]. *)
Definition domain_group (group : string * list Thing.t) : M unit :=
  let '(d, links) := group in
  with_timer "link_vote_processor.domain_queries" (
    add_queries
      ((λ sort, get_domain_links d sort "all") <$> SORTS)
      links).

(** [process_message] of [consume_domain_query_queue] *)
Definition domain_process_message (msgs : list string) : M unit :=
  call (
    let link_names : gset string := list_to_set msgs in
    links ← Link_by_fullnames (elements link_names);
    print "Processing";;
    let links_by_domain := group_by_domain links in
    for_each links_by_domain domain_group).

(** The two vote commit consumers, by the queue they serve. *)
Definition vote_process_message (kind : TargetKind) : VoteData.t → M unit :=
  match kind with
  | KLink => link_process_message
  | KComment => comment_process_message
  end.

(** [process_message] as [amqp.consume_items] gets it, under the decorator
    [@g.stats.amqp_processor(qname)]. *)
Definition decorated_process_message (kind : TargetKind) (qname : string)
    (msg : VoteData.t) : M unit :=
  amqp_processor qname (vote_process_message kind msg).

(** A consumer over a sequence of deliveries: [amqp.consume_items] hands
    every delivery to [process_message]; whatever the outcome of one
    delivery, the next one starts from the state it left. *)
Definition consume_items (process_message : VoteData.t → M unit)
    (msgs : list VoteData.t) (w : World) : World :=
  foldl (λ w msg, (process_message msg w).1.2) w msgs.

End Voting.

(** ** A concrete deployment, used to run the module on explicit inputs *)

Definition demo_collab : Collab := {|
  validate_vote_data vd :=
    match VoteData.user_id vd with None => Some false | Some _ => None end;
  get_vote_data data _ _ := data;
  organization_by_ips _ := None;
  get_context_data _ := "ctx"%string;
  get_sensitive_context_data _ := "sens"%string;
  serialize_direction d :=
    match d with DirUp => 1 | DirDown => -1 | DirNone => 0 end;
  last_modified_name c :=
    match c with LinkCls => "liked" | _ => "commentliked" end%string;
  affects_score v :=
    negb (bool_decide (Vote.previous_vote v = Some (Vote.direction v)));
  hostname url := if decide (url = ""%string) then None else Some url;
  domain_permutations url := if decide (url = ""%string) then [] else [url];
  hash h := match h with Some s => Z.of_nat (String.length s) | None => 0 end |}.

Definition demo_globals : Globals := {|
  vote_queue_grace_period := {| days := 0; seconds := 300; microseconds := 0 |};
  running_as_script := false;
  shard_author_query_queues := true;
  shard_subreddit_query_queues := true;
  shard_domain_query_queues := true;
  comment_vote_update_threshold := 5;
  comment_vote_update_period := 3 |}.

Definition alice : Account.t := Account.mk 1 "1" "t2_1".
Definition bob : Account.t := Account.mk 2 "2" "t2_2".

Definition link_a : Thing.t :=
  Thing.mk LinkCls "t3_a" 1 7 "example.com" false false 1 "vote_link_q".
Definition link_b : Thing.t :=
  Thing.mk LinkCls "t3_b" 2 7 "" false false 1 "vote_link_q".
Definition comment_c : Thing.t :=
  Thing.mk CommentCls "t1_c" 2 7 "" false false 5 "vote_comment_q".

Definition demo_world : World := {|
  accounts := {[ 1 := alice; 2 := bob ]};
  things := {[ "t3_a"%string := link_a; "t3_b"%string := link_b;
               "t1_c"%string := comment_c ]};
  subreddits := {[ 7 := Subreddit.mk 7 ]};
  votes := ∅;
  listings := ∅;
  queues := ∅;
  gencache := ∅;
  last_modified := ∅;
  held_locks := ∅;
  busy_queries := ∅;
  cache_down := false |}.

(** A vote message as [cast_vote] builds it. *)
Definition vote_msg (user : Z) (thing : string) (d : Direction) : VoteData.t :=
  VoteData.mk (Some user) (Some thing) (Some d) (Some (DateInt 0)) (Some ∅) None.

(** A payload without its [user_id], which the validation hook rejects. *)
Definition corrupt_msg : VoteData.t :=
  VoteData.mk None (Some "t3_a"%string) (Some DirUp) (Some (DateInt 0)) (Some ∅) None.

(** ** Vocabulary of the properties *)

(** The direction on record for (actor, target). *)
Definition stored_direction (w : World) (user : Z) (thing : string) : option Direction :=
  Vote.direction <$> votes w !! (user, thing).

(** A record is filed under its own identifier. *)
Definition db_consistent (w : World) : Prop :=
  map_Forall (λ id a, Account._id a = id) (accounts w) ∧
  map_Forall (λ name t, Thing._fullname t = name) (things w).

(** Every thing on file has its author on file. *)
Definition authors_on_file (w : World) : Prop :=
  map_Forall (λ _ t, is_Some (accounts w !! Thing.author_id t)) (things w).

(** The account and the thing a payload names, when both resolve. *)
Definition resolve (msg : VoteData.t) (w : World) : option (Account.t * Thing.t) :=
  user_id ← VoteData.user_id msg;
  user ← accounts w !! user_id;
  thing_fullname ← VoteData.thing_fullname msg;
  thing ← things w !! thing_fullname;
  Some (user, thing).

(** The exception the keyword arguments of [Vote(...)] raise, in the order
    they are evaluated: the [direction] key, the [date] key, the conversion
    of the date, the [data] key. *)
Definition args_error (msg : VoteData.t) : option Exn :=
  match VoteData.direction msg with
  | None => Some (KeyError "direction")
  | Some _ =>
      match VoteData.date msg with
      | None => Some (KeyError "date")
      | Some value =>
          match timestamp_to_datetime value with
          | inl e => Some e
          | inr _ =>
              match VoteData.data msg with
              | None => Some (KeyError "data")
              | Some _ => None
              end
          end
      end
  end.

(** The exception raised inside the [try] block that builds the [Vote]: one
    of the arguments, or the [TypeError] of the constructor. *)
Definition build_error (thing : Thing.t) (msg : VoteData.t) : option Exn :=
  match args_error msg with
  | Some e => Some e
  | None => if is_votable (Thing.cls thing) then None else Some TypeError
  end.

(** The keyword arguments of the [Vote] a payload asks for, when all of them
    evaluate. *)
Definition vote_args (msg : VoteData.t) : option (Direction * Z * Data) :=
  direction ← VoteData.direction msg;
  value ← VoteData.date msg;
  date ← match timestamp_to_datetime value with inl _ => None | inr date => Some date end;
  data ← VoteData.data msg;
  Some (direction, date, data).

(** The [Vote] built for a payload by the resolved actor on the resolved
    thing. *)
Definition new_vote (user : Account.t) (thing : Thing.t) (msg : VoteData.t)
    (w : World) : option Vote.t :=
  '(direction, date, data) ← vote_args msg;
  if is_votable (Thing.cls thing) then
    Some (Vote.mk user thing direction date data (VoteData.event_data msg)
            (stored_direction w (Account._id user) (Thing._fullname thing)))
  else None.

(** The state after [vote.commit()]. *)
Definition commit_world (vote : Vote.t) (w : World) : World :=
  with_votes
    <[(Account._id (Vote.user vote), Thing._fullname (Vote.thing vote)) := vote]> w.

Definition is_commit (e : Event) : bool :=
  match e with EvCommit _ _ _ => true | _ => false end.

(** A delivery was committed when its trace shows the call of
    [vote.commit()]. *)
Definition committed (trace : list Event) : bool := existsb is_commit trace.

(** Where a trace stands with respect to the vote lock: not yet acquired,
    held, or released. *)
Inductive LockPhase := BeforeLock | InLock | AfterLock.

(** A trace keeps the vote commit and the liked / disliked update inside one
    scope of [lock]: the lock is acquired at most once, with the given
    namespace, key and timeout, and released once after that; every commit
    and every update of a liked / disliked listing lies between that
    acquisition and that release; no other lock shows up.  Without a lock
    ([None]) the trace may contain none of these. *)
Fixpoint lock_scoped (lock : option (string * string * Z)) (phase : LockPhase)
    (trace : list Event) : bool :=
  match trace with
  | [] => match phase with InLock => false | _ => true end
  | e :: trace' =>
      match e, phase with
      | EvLockAcquire ns key timeout, BeforeLock =>
          bool_decide (lock = Some (ns, key, timeout)) && lock_scoped lock InLock trace'
      | EvLockRelease ns key, InLock =>
          bool_decide (fst <$> lock = Some (ns, key)) && lock_scoped lock AfterLock trace'
      | (EvCommit _ _ _ | EvInsert _ _ | EvDelete _ _), InLock =>
          lock_scoped lock InLock trace'
      | (EvLockAcquire _ _ _ | EvLockRelease _ _
         | EvCommit _ _ _ | EvInsert _ _ | EvDelete _ _), _ => false
      | _, _ => lock_scoped lock phase trace'
      end
  end.

(** The lock [consume_link_vote_queue] takes for a payload. *)
Definition vote_lock (msg : VoteData.t) (w : World) : option (string * string * Z) :=
  '(user, link) ← resolve msg w;
  Some ("voting"%string, vote_lock_key user link, 5).

Definition is_lock_or_liked (e : Event) : bool :=
  match e with
  | EvLockAcquire _ _ _ | EvLockRelease _ _ | EvInsert _ _ | EvDelete _ _ => true
  | _ => false
  end.

(** The fan-out calls: an enqueue of a fullname, or a listing update. *)
Definition is_fan_out (e : Event) : bool :=
  match e with
  | EvAddItem _ (BName _) | EvAddQueries _ _ => true
  | _ => false
  end.

Definition fanned_out (trace : list Event) : bool := existsb is_fan_out trace.

(** The eligibility test both consumers apply after the commit. *)
Definition eligible {collab : Collab} (vote : Vote.t) (thing : Thing.t) : bool :=
  (is_automatic_initial_vote vote || affects_score vote)
  && negb (Thing._spam thing || Thing._deleted thing).

(** The items of the [add_queries] calls of a trace, in order. *)
Definition add_queries_calls (trace : list Event) : list (list Query * list string) :=
  omap (λ e, match e with EvAddQueries qs items => Some (qs, items) | _ => None end) trace.

(** Weakest preconditions: [wp m Q w] when running [m] in [w] ends in an
    outcome, a state and a trace that satisfy [Q]. *)
Definition wp {A} (m : M A) (Q : Outcome A → World → list Event → Prop)
    (w : World) : Prop :=
  Q (m w).1.1 (m w).1.2 (m w).2.

Section Results.
Context {collab : Collab} (g : Globals).

(** The runs of [process_message] of [consume_link_vote_queue], one
    constructor per way through the function. *)
Inductive link_result (msg : VoteData.t) (w : World)
  : Outcome unit → World → list Event → Prop :=
| LinkCorrupt :
    validate_vote_data msg = Some false →
    link_result msg w (Normal ()) w [EvPrint "Ignoring invalid vote"]
| LinkUnresolved e :
    validate_vote_data msg ≠ Some false →
    resolve msg w = None →
    link_result msg w (Raise e) w [EvTimerStart "link_vote_processor"]
| LinkLockTimeout user link :
    validate_vote_data msg ≠ Some false →
    resolve msg w = Some (user, link) →
    ("voting"%string, vote_lock_key user link) ∈ held_locks w →
    link_result msg w (Raise TimeoutExpired) w [EvTimerStart "link_vote_processor"]
| LinkRaised user link e :
    validate_vote_data msg ≠ Some false →
    resolve msg w = Some (user, link) →
    ("voting"%string, vote_lock_key user link) ∉ held_locks w →
    build_error link msg = Some e →
    e ≠ TypeError →
    link_result msg w (Raise e) w
      [EvTimerStart "link_vote_processor";
       EvLockAcquire "voting" (vote_lock_key user link) 5;
       EvPrint "Processing vote";
       EvLockRelease "voting" (vote_lock_key user link)]
| LinkInvalidType user link :
    validate_vote_data msg ≠ Some false →
    resolve msg w = Some (user, link) →
    ("voting"%string, vote_lock_key user link) ∉ held_locks w →
    build_error link msg = Some TypeError →
    link_result msg w (Normal ()) w
      [EvTimerStart "link_vote_processor";
       EvLockAcquire "voting" (vote_lock_key user link) 5;
       EvPrint "Processing vote";
       EvLogException "Invalid type";
       EvLockRelease "voting" (vote_lock_key user link)]
| LinkCommitted user link vote :
    validate_vote_data msg ≠ Some false →
    resolve msg w = Some (user, link) →
    ("voting"%string, vote_lock_key user link) ∉ held_locks w →
    new_vote user link msg w = Some vote →
    let liked := update_user_liked vote (commit_world vote w) in
    let fanned := link_fan_out g vote link liked.1.2 in
    link_result msg w (Normal ()) fanned.1.2
      ([EvTimerStart "link_vote_processor";
        EvLockAcquire "voting" (vote_lock_key user link) 5;
        EvPrint "Processing vote";
        EvCommit (Account._id user) (Thing._fullname link) (Vote.direction vote);
        EvTimerIntermediate "link_vote_processor" "create_vote_object"]
       ++ liked.2
       ++ [EvTimerIntermediate "link_vote_processor" "voter_likes";
           EvLockRelease "voting" (vote_lock_key user link)]
       ++ fanned.2
       ++ [EvTimerStop "link_vote_processor";
           EvTimerFlush "link_vote_processor"]).

(** The runs of [process_message] of [consume_comment_vote_queue]. *)
Inductive comment_result (msg : VoteData.t) (w : World)
  : Outcome unit → World → list Event → Prop :=
| CommentCorrupt :
    validate_vote_data msg = Some false →
    comment_result msg w (Normal ()) w [EvPrint "Ignoring invalid vote"]
| CommentUnresolved e :
    validate_vote_data msg ≠ Some false →
    resolve msg w = None →
    comment_result msg w (Raise e) w [EvTimerStart "comment_vote_processor"]
| CommentRaised user comment e :
    validate_vote_data msg ≠ Some false →
    resolve msg w = Some (user, comment) →
    build_error comment msg = Some e →
    e ≠ TypeError →
    comment_result msg w (Raise e) w
      [EvTimerStart "comment_vote_processor"; EvPrint "Processing vote"]
| CommentInvalidType user comment :
    validate_vote_data msg ≠ Some false →
    resolve msg w = Some (user, comment) →
    build_error comment msg = Some TypeError →
    comment_result msg w (Normal ()) w
      [EvTimerStart "comment_vote_processor"; EvPrint "Processing vote";
       EvLogException "Invalid type"]
| CommentCommitted user comment vote :
    validate_vote_data msg ≠ Some false →
    resolve msg w = Some (user, comment) →
    new_vote user comment msg w = Some vote →
    let fanned :=
      comment_fan_out g "comment_vote_processor" vote comment (commit_world vote w) in
    comment_result msg w
      (match fanned.1.1 with Raise e => Raise e | _ => Normal () end)
      fanned.1.2
      ([EvTimerStart "comment_vote_processor"; EvPrint "Processing vote";
        EvCommit (Account._id user) (Thing._fullname comment) (Vote.direction vote);
        EvTimerIntermediate "comment_vote_processor" "create_vote_object"]
       ++ fanned.2
       ++ match fanned.1.1 with
          | Normal _ =>
              [EvTimerStop "comment_vote_processor";
               EvTimerFlush "comment_vote_processor"]
          | _ => []
          end).

End Results.

(** What [update_user_liked] asks of the mutator, in order. *)
Definition liked_trace (vote : Vote.t) : list Event :=
  let user := Account._id (Vote.user vote) in
  let target := Thing._fullname (Vote.thing vote) in
  match Vote.previous_vote vote with
  | Some DirUp => [EvDelete (get_liked user) [target]]
  | Some DirDown => [EvDelete (get_disliked user) [target]]
  | _ => []
  end ++
  match Vote.direction vote with
  | DirUp => [EvInsert (get_liked user) [target]]
  | DirDown => [EvInsert (get_disliked user) [target]]
  | DirNone => []
  end.



(** What the three enqueues of [link_fan_out] ask of the transport. *)
Definition link_fan_out_trace {collab : Collab} (g : Globals) (vote : Vote.t)
    (link : Thing.t) : list Event :=
  if eligible vote link then
    [EvAddItem (author_queue_name g link) (BName (Thing._fullname link));
     EvAddItem (subreddit_queue_name g link) (BName (Thing._fullname link))]
    ++ match domain_permutations (Thing.url link) with
       | [] => []
       | _ :: _ =>
           [EvAddItem (domain_queue_name g (Thing.url link))
              (BName (Thing._fullname link))]
       end
  else [].

(** [demo_world] with the cache backend down. *)
Definition cache_down_world : World :=
  mkWorld (accounts demo_world) (things demo_world) (subreddits demo_world)
    (votes demo_world) (listings demo_world) (queues demo_world)
    (gencache demo_world) (last_modified demo_world) (held_locks demo_world)
    (busy_queries demo_world) true.

(** [demo_world] while another worker holds the lock of the "hot" listing of
    the links submitted by account 1. *)
Definition busy_world : World :=
  mkWorld (accounts demo_world) (things demo_world) (subreddits demo_world)
    (votes demo_world) (listings demo_world) (queues demo_world)
    (gencache demo_world) (last_modified demo_world) (held_locks demo_world)
    {[ get_submitted 1 "hot" "all" ]} (cache_down demo_world).

(** Two states that differ at most in the cached listings. *)
Definition only_listings_changed (w w' : World) : Prop :=
  votes w' = votes w ∧ accounts w' = accounts w ∧ things w' = things w ∧
  subreddits w' = subreddits w ∧ queues w' = queues w ∧
  held_locks w' = held_locks w ∧ busy_queries w' = busy_queries w.

(** Events that are neither a commit, a lock operation nor an update of the
    liked / disliked listings. *)
Definition is_quiet (e : Event) : bool := negb (is_commit e) && negb (is_lock_or_liked e).

(** The conditions under which a delivery reaches [vote.commit()]: the
    payload passes validation, actor and target resolve, the keyword
    arguments evaluate (the keys are present and the date converts), the
    target can be voted on and, for the link consumer, the vote lock is
    free. *)
Definition will_commit {collab : Collab} (kind : TargetKind) (msg : VoteData.t)
    (w : World) : Prop :=
  validate_vote_data msg ≠ Some false ∧
  ∃ user thing,
    resolve msg w = Some (user, thing) ∧
    is_Some (new_vote user thing msg w) ∧
    (kind = KLink → ("voting"%string, vote_lock_key user thing) ∉ held_locks w).

(** [will_commit] as a test on the payload and the state it is delivered
    in: not flagged by the validation hook, actor and target on file, no
    exception while the [Vote] is built and, for the link consumer, the lock
    of the pair not held elsewhere. *)
Definition commits {collab : Collab} (kind : TargetKind) (w : World)
    (msg : VoteData.t) : bool :=
  negb (bool_decide (validate_vote_data msg = Some false)) &&
  match resolve msg w with
  | Some (user, thing) =>
      bool_decide (build_error thing msg = None) &&
      match kind with
      | KLink => bool_decide (("voting"%string, vote_lock_key user thing) ∉ held_locks w)
      | KComment => true
      end
  | None => false
  end.


(** The fullnames of a batch with duplicates collapsed,
    [{msg.body for msg in msgs}], in the order they are resolved. *)
Definition batch_names (msgs : list string) : list string :=
  elements (list_to_set msgs : gset string).



(** Deliveries by account 1 on link [t3_a]: an upvote, a downvote, and the
    downvote delivered a second time. *)
Definition demo_deliveries : list VoteData.t :=
  [vote_msg 1 "t3_a" DirUp; vote_msg 1 "t3_a" DirDown; vote_msg 1 "t3_a" DirDown].

(** ** Further vocabulary *)

(** The exception [process_message] meets while it resolves the actor and
    the target of a payload, following the order of the source: the
    [user_id] key, the account, the [thing_fullname] key, the thing. *)
Definition resolve_error (msg : VoteData.t) (w : World) : option Exn :=
  match VoteData.user_id msg with
  | None => Some (KeyError "user_id")
  | Some user_id =>
      match accounts w !! user_id with
      | None => Some NotFound
      | Some _ =>
          match VoteData.thing_fullname msg with
          | None => Some (KeyError "thing_fullname")
          | Some thing_fullname =>
              match things w !! thing_fullname with
              | None => Some NotFound
              | Some _ => None
              end
          end
      end
  end.

(** The timer a vote consumer keeps. *)
Definition vote_timer (kind : TargetKind) : string :=
  match kind with
  | KLink => "link_vote_processor"
  | KComment => "comment_vote_processor"
  end.

(** [demo_world] while another worker holds the vote lock of account 1 on
    link [t3_a]. *)
Definition locked_world : World :=
  mkWorld (accounts demo_world) (things demo_world) (subreddits demo_world)
    (votes demo_world) (listings demo_world) (queues demo_world)
    (gencache demo_world) (last_modified demo_world)
    {[ ("voting"%string, "vote-1-t3_a"%string) ]}
    (busy_queries demo_world) (cache_down demo_world).

(** The liked and disliked listings agree with the vote store: a target is
    in an actor's liked (disliked) listing exactly when the direction on
    record for that actor on that target is up (down). *)
Definition liked_reflects_votes (w : World) : Prop :=
  ∀ (u : Z) (t : string),
    (t ∈ listing w (get_liked u) ↔ stored_direction w u t = Some DirUp) ∧
    (t ∈ listing w (get_disliked u) ↔ stored_direction w u t = Some DirDown).

(** What [update_user_liked] makes of the listing that collects the votes of
    direction [d]: the target leaves it when the previous vote had that
    direction and joins it when the new vote has. *)
Definition moved (vote : Vote.t) (d : Direction) (s : gset string) : gset string :=
  let target := Thing._fullname (Vote.thing vote) in
  let s1 := if bool_decide (Vote.previous_vote vote = Some d) then s ∖ {[target]} else s in
  if bool_decide (Vote.direction vote = d) then s1 ∪ {[target]} else s1.

(** The [vote_data] dict [cast_vote] serialises. *)
Definition cast_payload {collab : Collab} (g : Globals) (request : Request)
    (user : Account.t) (thing : Thing.t) (direction : Direction) (data : Data)
    : VoteData.t :=
  let data := <["ip" := ip request]> data in
  let data :=
    match ip request with
    | Some addr => <["org" := organization_by_ips addr]> data
    | None => data
    end in
  VoteData.mk (Some (Account._id user)) (Some (Thing._fullname thing))
    (Some direction) (Some (DateInt (now request))) (Some (get_vote_data data user thing))
    (if running_as_script g then None
     else Some (get_context_data request, get_sensitive_context_data request)).

(** A later state in which only the cached listings changed, and those only
    by gaining members. *)
Definition listings_grow (w w' : World) : Prop :=
  only_listings_changed w w' ∧ ∀ q, listing w q ⊆ listing w' q.

(** Every thing on file has its subreddit on file, under its own id. *)
Definition subreddits_on_file (w : World) : Prop :=
  map_Forall
    (λ _ t, Subreddit._id <$> subreddits w !! Thing.sr_id t = Some (Thing.sr_id t))
    (things w).

(** [demo_globals] with a comment threshold of 1 and an update period of 0. *)
Definition zero_period_globals : Globals := {|
  vote_queue_grace_period := vote_queue_grace_period demo_globals;
  running_as_script := running_as_script demo_globals;
  shard_author_query_queues := shard_author_query_queues demo_globals;
  shard_subreddit_query_queues := shard_subreddit_query_queues demo_globals;
  shard_domain_query_queues := shard_domain_query_queues demo_globals;
  comment_vote_update_threshold := 1;
  comment_vote_update_period := 0 |}.



(** A downvote by account 1 on link [t3_a] dated one second after
    [datetime.max], and an upvote whose [date] is [null]. *)
Definition late_msg : VoteData.t :=
  VoteData.mk (Some 1) (Some "t3_a"%string) (Some DirDown)
    (Some (DateInt (max_timestamp + 1))) (Some ∅) None.

Definition null_date_msg : VoteData.t :=
  VoteData.mk (Some 1) (Some "t3_a"%string) (Some DirUp) (Some DateNotNumber) (Some ∅) None.

(** [timedelta.max] *)
Definition timedelta_max : timedelta :=
  {| days := 999999999; seconds := 86399; microseconds := 999999 |}.

(** Deliveries by account 1 on link [t3_a]: a downvote, an upvote, a
    downvote dated after [datetime.max] and an upvote without a usable
    date. *)
Definition mixed_deliveries : list VoteData.t :=
  [vote_msg 1 "t3_a" DirDown; vote_msg 1 "t3_a" DirUp; late_msg; null_date_msg].
(** ** Symbolic execution *)

Lemma wp_ret {A} (a : A) Q w : Q (Normal a) w [] → wp (mret a) Q w.
Proof. done. Qed.

Lemma wp_emit e Q w : Q (Normal ()) w [e] → wp (emit e) Q w.
Proof. done. Qed.

Lemma wp_raise {A} e (Q : Outcome A → World → list Event → Prop) w :
  Q (Raise e) w [] → wp (raise e) Q w.
Proof. done. Qed.

Lemma wp_return {A} (Q : Outcome A → World → list Event → Prop) w :
  Q Return w [] → wp return_ Q w.
Proof. done. Qed.

Lemma wp_gets {A} (f : World → A) Q w : Q (Normal (f w)) w [] → wp (gets f) Q w.
Proof. done. Qed.

Lemma wp_modify f Q w : Q (Normal ()) (f w) [] → wp (modify f) Q w.
Proof. done. Qed.

Lemma wp_bind {A B} (m : M A) (f : A → M B) Q w :
  wp m (λ o w1 t1,
    match o with
    | Normal a => wp (f a) (λ o2 w2 t2, Q o2 w2 (t1 ++ t2)) w1
    | Return => Q Return w1 t1
    | Raise e => Q (Raise e) w1 t1
    end) w →
  wp (m ≫= f) Q w.
Proof.
  unfold wp, mbind, M_bind. destruct (m w) as [[[a| |e] w1] t1]; simpl; try done.
  by destruct (f a w1) as [[o2 w2] t2].
Qed.

Lemma wp_call body Q w :
  wp body (λ o w1 t1, Q (match o with Return => Normal () | _ => o end) w1 t1) w →
  wp (call body) Q w.
Proof. unfold wp, call. by destruct (body w) as [[[[]| |e] w1] t1]. Qed.

Lemma wp_try_except {A} (body handler : M A) exn Q w :
  wp body (λ o w1 t1,
    match o with
    | Raise e =>
        if decide (e = exn) then wp handler (λ o2 w2 t2, Q o2 w2 (t1 ++ t2)) w1
        else Q (Raise e) w1 t1
    | _ => Q o w1 t1
    end) w →
  wp (try_except body exn handler) Q w.
Proof.
  unfold wp, try_except. destruct (body w) as [[[a| |e] w1] t1]; simpl; try done.
  case_decide; [|done]. by destruct (handler w1) as [[o2 w2] t2].
Qed.

Lemma wp_make_lock {A} ns key timeout (body : M A) Q w :
  (if decide ((ns, key) ∈ held_locks w) then Q (Raise TimeoutExpired) w []
   else wp body (λ o w1 t1,
          Q o w1 (EvLockAcquire ns key timeout :: t1 ++ [EvLockRelease ns key])) w) →
  wp (make_lock ns key timeout body) Q w.
Proof.
  unfold wp, make_lock. case_decide; [done|]. by destruct (body w) as [[o w1] t1].
Qed.

Lemma wp_with_timer {A} name (body : M A) Q w :
  wp body (λ o w1 t1, Q o w1 (EvTimerStart name :: t1 ++ [EvTimerStop name])) w →
  wp (with_timer name body) Q w.
Proof. unfold wp, with_timer. by destruct (body w) as [[o w1] t1]. Qed.

(** Stepping over a call that is known to fall through. *)
Lemma wp_normal {A} (m : M A) a Q w :
  (m w).1.1 = Normal a → Q (Normal a) (m w).1.2 (m w).2 → wp m Q w.
Proof. unfold wp. by intros ->. Qed.

Lemma wp_mono {A} (m : M A) (Q1 Q2 : Outcome A → World → list Event → Prop) w :
  wp m Q1 w → (∀ o w' t, Q1 o w' t → Q2 o w' t) → wp m Q2 w.
Proof. unfold wp. auto. Qed.

Lemma wp_eq {A} (m : M A) w r : wp m (λ o w' t, (o, w', t) = r) w → m w = r.
Proof. unfold wp. by destruct (m w) as [[? ?] ?]. Qed.

Lemma wp_value {A} (m : M A) (Q : Outcome A → World → list Event → Prop) w o w1 t1 :
  m w = (o, w1, t1) → Q o w1 t1 → wp m Q w.
Proof. unfold wp. by intros ->. Qed.

Lemma wp_run {A} (m : M A) Q w : wp m Q w → Q (m w).1.1 (m w).1.2 (m w).2.
Proof. done. Qed.

(** ** Tactics for symbolic execution *)

Ltac wp_unfold :=
  unfold print, timer_start, timer_intermediate, timer_stop, timer_flush, getitem,
    Account_byID, Thing_by_fullname, mutator_delete, mutator_insert, amqp_add_item,
    Vote_new, Vote_commit, gencache_set, LastModified_touch, dict_getitem,
    utcfromtimestamp.

Ltac wp_step :=
  lazymatch goal with
  | |- wp (mbind _ _) _ _ => apply wp_bind
  | |- wp (mret _) _ _ => apply wp_ret
  | |- wp (emit _) _ _ => apply wp_emit
  | |- wp (raise _) _ _ => apply wp_raise
  | |- wp return_ _ _ => apply wp_return
  | |- wp (gets _) _ _ => apply wp_gets
  | |- wp (modify _) _ _ => apply wp_modify
  | |- wp (call _) _ _ => apply wp_call
  | |- wp (try_except _ _ _) _ _ => apply wp_try_except
  | |- wp (make_lock _ _ _ _) _ _ => apply wp_make_lock
  | |- wp (with_timer _ _) _ _ => apply wp_with_timer
  | |- wp (match ?x with _ => _ end) _ _ => destruct x eqn:?
  | |- match ?x with _ => _ end => destruct x eqn:?
  end; lazy beta iota.

Ltac wp_steps := repeat (wp_unfold; wp_step).


(** ** Listings and queues after an update *)

Lemma listing_insert (w : World) (q q' : Query) (s : gset string) :
  listing (with_listings <[q := s]> w) q' = if decide (q = q') then s else listing w q'.
Proof.
  unfold listing, with_listings; simpl. case_decide as Hq.
  - subst. by rewrite lookup_insert_eq.
  - by rewrite lookup_insert_ne.
Qed.

Lemma queue_insert (w : World) (name name' : string) (items : list Body) :
  queue (with_queues <[name := items]> w) name' =
    if decide (name = name') then items else queue w name'.
Proof.
  unfold queue, with_queues; simpl. case_decide as Hq.
  - subst. by rewrite lookup_insert_eq.
  - by rewrite lookup_insert_ne.
Qed.

(** ** The voter's liked and disliked listings *)

Lemma update_user_liked_run (vote : Vote.t) (w : World) :
  let r := update_user_liked vote w in
  r.1.1 = Normal () ∧ r.2 = liked_trace vote ∧
  votes r.1.2 = votes w ∧ queues r.1.2 = queues w ∧ accounts r.1.2 = accounts w ∧
  things r.1.2 = things w ∧ held_locks r.1.2 = held_locks w ∧
  busy_queries r.1.2 = busy_queries w.
Proof.
  apply (wp_run (update_user_liked vote)
           (λ o w' t, o = Normal () ∧ t = liked_trace vote ∧
              votes w' = votes w ∧ queues w' = queues w ∧ accounts w' = accounts w ∧
              things w' = things w ∧ held_locks w' = held_locks w ∧
              busy_queries w' = busy_queries w)).
  unfold update_user_liked, liked_trace, Vote.is_upvote, Vote.is_downvote.
  destruct vote as [u th d dt da ed [[]|]], d; simpl; wp_steps; done.
Qed.

(** ** [add_queries] *)

Lemma only_listings_changed_refl w : only_listings_changed w w.
Proof. by repeat split. Qed.

Lemma only_listings_changed_trans w1 w2 w3 :
  only_listings_changed w1 w2 → only_listings_changed w2 w3 →
  only_listings_changed w1 w3.
Proof. unfold only_listings_changed. intros ? ?. intuition congruence. Qed.

Lemma for_each_add_query_run (items : list string) (queries : list Query) (w : World) :
  let r := for_each queries (add_query items) w in
  only_listings_changed w r.1.2 ∧ r.2 = [] ∧ r.1.1 ≠ Return.
Proof.
  apply (wp_run (for_each queries (add_query items))
           (λ o w' t, only_listings_changed w w' ∧ t = [] ∧ o ≠ Return)).
  revert w. induction queries as [|q queries IH]; intros w; simpl.
  { wp_steps. split; [apply only_listings_changed_refl|done]. }
  apply wp_bind. unfold add_query at 1. wp_steps.
  - split; [apply only_listings_changed_refl|done].
  - eapply wp_mono; [apply IH|]. simpl.
    intros o w' t (Hf & -> & Ho). split; [|done].
    eapply only_listings_changed_trans; [|exact Hf]. by repeat split.
Qed.

Lemma wp_add_queries (queries : list Query) (insert_items : list Thing.t) Q w :
  (∀ o w', o ≠ Return → only_listings_changed w w' →
     Q o w' [EvAddQueries queries (Thing._fullname <$> insert_items)]) →
  wp (add_queries queries insert_items) Q w.
Proof.
  intros HQ. unfold add_queries. apply wp_bind, wp_emit.
  pose proof (for_each_add_query_run (Thing._fullname <$> insert_items) queries w) as Hr.
  simpl in Hr. unfold wp.
  destruct (for_each queries _ w) as [[o w'] t]; simpl in *.
  destruct Hr as (Hf & -> & Ho). by apply HQ.
Qed.

(** ** Lookups *)

Lemma Things_by_fullname_run (names : list string) (w : World) :
  wp (Things_by_fullname names)
    (λ o w' t, w' = w ∧ t = [] ∧ o ≠ Return ∧
       ∀ links, o = Normal links → Forall2 (λ n l, things w !! n = Some l) names links) w.
Proof.
  induction names as [|n names IH]; simpl.
  { wp_steps. repeat split; try done. intros links [= <-]. constructor. }
  wp_steps.
  - eapply wp_mono; [apply IH|]. simpl.
    intros o w' tr (-> & -> & Ho & Hlinks).
    destruct o as [links| |e]; try done. wp_steps.
    repeat split; try done. intros ? [= <-]. constructor; auto.
  - done.
Qed.

Lemma Account_byIDs_run (ids : list Z) (w : World) :
  wp (Account_byIDs ids)
    (λ o w' t, w' = w ∧ t = [] ∧ o ≠ Return ∧
       ∀ d, o = Normal d → ∀ id, id ∈ ids → is_Some (d !! id)) w.
Proof.
  induction ids as [|id ids IH]; simpl.
  { wp_steps. repeat split; try done. intros d _ id Hid. by apply elem_of_nil in Hid. }
  wp_steps.
  - eapply wp_mono; [apply IH|]. simpl.
    intros o w' tr (-> & -> & Ho & Hd).
    destruct o as [d| |e]; try done. wp_steps.
    repeat split; try done. intros ? [= <-] id' Hid'.
    destruct (decide (id = id')) as [->|Hne].
    + rewrite lookup_insert_eq. by eexists.
    + rewrite lookup_insert_ne by done. apply (Hd d eq_refl).
      apply elem_of_cons in Hid' as [?|?]; [congruence|done].
  - done.
Qed.

Lemma Subreddit_byIDs_run (ids : list Z) (w : World) :
  wp (Subreddit_byIDs ids)
    (λ o w' t, w' = w ∧ t = [] ∧ o ≠ Return ∧
       ∀ d, o = Normal d → ∀ id, id ∈ ids → is_Some (d !! id)) w.
Proof.
  induction ids as [|id ids IH]; simpl.
  { wp_steps. repeat split; try done. intros d _ id Hid. by apply elem_of_nil in Hid. }
  wp_steps.
  - eapply wp_mono; [apply IH|]. simpl.
    intros o w' tr (-> & -> & Ho & Hd).
    destruct o as [d| |e]; try done. wp_steps.
    repeat split; try done. intros ? [= <-] id' Hid'.
    destruct (decide (id = id')) as [->|Hne].
    + rewrite lookup_insert_eq. by eexists.
    + rewrite lookup_insert_ne by done. apply (Hd d eq_refl).
      apply elem_of_cons in Hid' as [?|?]; [congruence|done].
  - done.
Qed.


(** ** Grouping *)

Lemma dict_append_keys {K V} `{EqDecision K} (k : K) (v : V) (d : list (K * list V)) :
  (dict_append k v d).*1 = if decide (k ∈ d.*1) then d.*1 else d.*1 ++ [k].
Proof.
  induction d as [|[k' vs] d IH].
  { destruct (decide _) as [Hin|]; [by apply elem_of_nil in Hin|done]. }
  cbn [dict_append]. destruct (decide (k = k')) as [->|Hne].
  - rewrite !fmap_cons. cbn [fst].
    destruct (decide (k' ∈ k' :: d.*1)) as [|Hin]; [done|]. destruct Hin. by left.
  - rewrite !fmap_cons, IH. cbn [fst].
    destruct (decide (k ∈ d.*1)), (decide (k ∈ k' :: d.*1)); try done; set_solver.
Qed.

Lemma dict_append_NoDup {K V} `{EqDecision K} (k : K) (v : V) (d : list (K * list V)) :
  NoDup d.*1 → NoDup (dict_append k v d).*1.
Proof.
  intros Hd. rewrite dict_append_keys. case_decide; [done|].
  apply NoDup_app. split; [done|]. split; [|apply NoDup_singleton].
  intros x Hx ->%list_elem_of_singleton. done.
Qed.

Lemma dict_append_elem {K V} `{EqDecision K} (k : K) (v : V)
    (d : list (K * list V)) (k' : K) (vs : list V) :
  NoDup d.*1 →
  (k', vs) ∈ dict_append k v d →
  (k' ≠ k ∧ (k', vs) ∈ d) ∨
  (k' = k ∧ ∃ vs0, (k, vs0) ∈ d ∧ vs = vs0 ++ [v]) ∨
  (k' = k ∧ k ∉ d.*1 ∧ vs = [v]).
Proof.
  induction d as [|[k0 vs0] d IH]; simpl; intros Hd Hin.
  { apply list_elem_of_singleton in Hin. simplify_eq.
    right; right. split; [done|]. split; [apply not_elem_of_nil|done]. }
  apply NoDup_cons in Hd as [Hk0 Hd].
  destruct (decide (k = k0)) as [->|Hne].
  - apply elem_of_cons in Hin as [Heq|Hin]; [simplify_eq|].
    + right; left. split; [done|]. exists vs0. split; [by left|done].
    + left. split; [|by right].
      intros ->. apply Hk0. apply list_elem_of_fmap. by exists (k0, vs).
  - apply elem_of_cons in Hin as [Heq|Hin]; [simplify_eq|].
    + left. split; [done|by left].
    + destruct (IH Hd Hin) as [[Hk Hi]|[[-> (vs1 & Hi & ->)]|(-> & Hnin & ->)]].
      * left. split; [done|by right].
      * right; left. split; [done|]. exists vs1. split; [by right|done].
      * right; right. split; [done|]. split; [|done].
        intros [?|?]%elem_of_cons; done.
Qed.


(** ** Loops *)


(** An exception in the body ends the loop: the elements after the failing
    one are never visited. *)
Lemma for_each_abort {A} (pre post : list A) (x : A) (body : A → M unit)
    (w w1 w2 : World) (t1 t2 : list Event) (e : Exn) :
  for_each pre body w = (Normal (), w1, t1) →
  body x w1 = (Raise e, w2, t2) →
  for_each (pre ++ x :: post) body w = (Raise e, w2, t1 ++ t2).
Proof.
  revert w t1. induction pre as [|y pre IH]; intros w t1; simpl.
  - intros [= <- <-] Hx. unfold mbind, M_bind. by rewrite Hx.
  - unfold mbind, M_bind. destruct (body y w) as [[[[]| |e'] wy] ty]; try done.
    destruct (for_each pre body wy) as [[o' w'] t'] eqn:Hpre.
    intros [= -> -> <-] Hx.
    rewrite (IH wy t' Hpre Hx). by rewrite app_assoc.
Qed.

(** ** Whole seconds of a [timedelta] *)

Lemma nearest_even_exact (q d : Z) : 0 < d → nearest_even (q * d) d = q.
Proof.
  intros Hd. unfold nearest_even.
  rewrite Z.mod_mul, Z.div_mul by lia.
  replace (2 * 0) with 0 by lia.
  destruct (Z.compare_spec 0 d); lia.
Qed.

Lemma nearest_even_bounds (n d : Z) :
  n / d ≤ nearest_even n d ≤ n / d + 1.
Proof.
  unfold nearest_even.
  destruct (2 * (n `mod` d) ?= d); [destruct (Z.even (n / d))|..]; lia.
Qed.

(** A quotient of whole seconds is a float as long as it has at most 53
    bits, and comes back from the float unchanged. *)
Lemma int_true_div_exact (n d : Z) :
  0 < d → Z.abs n < 2 ^ 53 → int_true_div (n * d) d = n.
Proof.
  intros Hd Hn. unfold int_true_div.
  rewrite Z.abs_mul, (Z.abs_eq d) by lia.
  destruct (Z.eqb_spec (Z.abs n * d) 0) as [H0|H0]; [nia|].
  assert (0 < Z.abs n) as Hpos by nia.
  assert (d ≤ Z.abs n * d) as Hle by nia.
  rewrite (proj2 (Z.leb_le _ _) Hle).
  rewrite Z.div_mul by lia.
  assert (Z.log2 (Z.abs n) < 53) as Hlog by (apply Z.log2_lt_pow2; lia).
  assert (Z.sgn (n * d) = Z.sgn n) as -> by (rewrite Z.sgn_mul; lia).
  destruct (Z.leb_spec 0 (Z.log2 (Z.abs n) - 52)) as [Hs|Hs].
  - assert (Z.log2 (Z.abs n) - 52 = 0) as -> by lia.
    rewrite Z.pow_0_r, !Z.mul_1_r, nearest_even_exact by lia. lia.
  - set (k := - (Z.log2 (Z.abs n) - 52)).
    assert (0 < 2 ^ k) by (apply Z.pow_pos_nonneg; lia).
    replace (Z.abs n * d * 2 ^ k) with (Z.abs n * 2 ^ k * d) by lia.
    rewrite nearest_even_exact, Z.div_mul by lia. lia.
Qed.

(** With a quantum [2 ^ -k] finer than [1 / d], rounding [a / d] to a
    multiple of the quantum never reaches the next integer. *)
Lemma trunc_nearest (a d k : Z) :
  0 ≤ a → 0 < d → 0 ≤ k → d < 2 ^ k →
  nearest_even (a * 2 ^ k) d / 2 ^ k = a / d.
Proof.
  intros Ha Hd Hk HP. set (P := 2 ^ k) in *.
  pose proof (nearest_even_bounds (a * P) d) as Hm.
  set (m := nearest_even (a * P) d) in *.
  pose proof (Z.mul_div_le (a * P) d Hd) as Hq1.
  pose proof (Z.mul_succ_div_gt (a * P) d Hd) as Hq2.
  pose proof (Z.mul_div_le a d Hd) as Hs1.
  pose proof (Z.mul_succ_div_gt a d Hd) as Hs2.
  set (q := a * P / d) in *. set (sec := a / d) in *.
  assert (sec * P ≤ q) by nia.
  assert (q ≤ sec * P + P - 2) by nia.
  symmetry. apply Z.div_unique with (m - sec * P); lia.
Qed.

(** Below [2 ** 33] seconds the float is fine enough: [int(n / 10 ** 6)] is
    the number of whole seconds in [n] microseconds. *)
Lemma int_true_div_below (n : Z) :
  Z.abs n < 2 ^ 33 * 1000000 → int_true_div n 1000000 = Z.quot n 1000000.
Proof.
  intros Hn. unfold int_true_div.
  rewrite Z.quot_div by lia.
  change (Z.sgn 1000000) with 1. change (Z.abs 1000000) with 1000000.
  rewrite Z.mul_1_r.
  destruct (Z.eqb_spec (Z.abs n) 0) as [H0|H0].
  { rewrite H0. simpl. lia. }
  set (a := Z.abs n) in *.
  set (e := if 1000000 <=? a then Z.log2 (a / 1000000)
            else - Z.log2_up ((1000000 + a - 1) / a)).
  assert (e ≤ 32) as He.
  { subst e. destruct (Z.leb_spec 1000000 a) as [Hle|Hlt].
    - assert (0 < a / 1000000) by (apply Z.div_str_pos; lia).
      assert (a / 1000000 < 2 ^ 33) by (apply Z.div_lt_upper_bound; lia).
      assert (Z.log2 (a / 1000000) < 33) by (apply Z.log2_lt_pow2; lia). lia.
    - pose proof (Z.log2_up_nonneg ((1000000 + a - 1) / a)). lia. }
  destruct (Z.leb_spec 0 (e - 52)) as [?|Hs]; [lia|].
  f_equal. apply trunc_nearest; try lia.
  assert (2 ^ 20 ≤ 2 ^ (- (e - 52))) by (apply Z.pow_le_mono_r; lia).
  change (2 ^ 20) with 1048576 in *. lia.
Qed.

Section Consumers.
Context {collab : Collab} (g : Globals).

(** ** Fan-out of a link vote *)

Lemma link_fan_out_run (vote : Vote.t) (link : Thing.t) (w : World) :
  let r := link_fan_out g vote link w in
  r.1.1 = Normal () ∧ r.2 = link_fan_out_trace g vote link ∧
  votes r.1.2 = votes w ∧ listings r.1.2 = listings w ∧ accounts r.1.2 = accounts w ∧
  things r.1.2 = things w ∧ held_locks r.1.2 = held_locks w.
Proof.
  apply (wp_run (link_fan_out g vote link)
           (λ o w' t, o = Normal () ∧ t = link_fan_out_trace g vote link ∧
              votes w' = votes w ∧ listings w' = listings w ∧
              accounts w' = accounts w ∧ things w' = things w ∧
              held_locks w' = held_locks w)).
  unfold link_fan_out, link_fan_out_trace, eligible.
  unfold add_to_author_query_q, add_to_subreddit_query_q, add_to_domain_query_q.
  wp_steps; done.
Qed.

(** ** The link vote consumer, path by path *)

Lemma link_result_trace msg w o w' t t' :
  link_result g msg w o w' t → t = t' → link_result g msg w o w' t'.
Proof. by intros ? <-. Qed.

Ltac path_side :=
  unfold resolve, new_vote, vote_args, build_error, args_error, stored_direction,
    commit_world in *;
  repeat first
    [ progress simplify_option_eq
    | match goal with
      | Hb : ?b = _ |- context [if ?b then _ else _] => rewrite Hb
      | Hx : ?x = _ |- context [match ?x with _ => _ end] => rewrite Hx
      end
    | progress simpl ];
  try done; try congruence; eauto.

Lemma link_process_message_result (msg : VoteData.t) (w : World) :
  let r := link_process_message g msg w in
  link_result g msg w r.1.1 r.1.2 r.2.
Proof.
  apply (wp_run (link_process_message g msg) (link_result g msg w)).
  unfold link_process_message, build_vote.
  destruct (decide (validate_vote_data msg = Some false)) as [Hv|Hv].
  { rewrite Hv. wp_steps. by apply LinkCorrupt. }
  apply wp_call.
  assert (∀ (m : M unit) Q,
    wp m Q w →
    wp (match validate_vote_data msg with
        | Some false => print "Ignoring invalid vote";; return_
        | _ => m
        end) Q w) as Hskip.
  { intros m Q Hm. by destruct (validate_vote_data msg) as [[]|]. }
  apply Hskip; clear Hskip.
  wp_steps.
  all: try (apply (wp_normal _ ()); [apply update_user_liked_run|]; wp_steps).
  all: try (apply (wp_normal _ ()); [apply link_fan_out_run|]; wp_steps).
  all: simpl.
  all: try match goal with Hne : ?x ≠ ?x |- _ => by destruct Hne end.
  all: try match goal with He : KeyError _ = TypeError |- _ => discriminate He end.
  all: try (eapply link_result_trace;
    [ first [ solve [eapply LinkLockTimeout; path_side]
            | solve [eapply LinkCommitted; path_side]
            | solve [eapply LinkUnresolved; path_side] ]
    | simpl; rewrite <- ?app_assoc; reflexivity ]).
  all: match goal with
    | Hu : accounts _ !! _ = Some ?u, Ht : things _ !! _ = Some ?t |- _ =>
        eapply link_result_trace;
          [ first [ solve [eapply (LinkInvalidType _ _ _ u t); path_side]
                  | solve [eapply (LinkRaised _ _ _ u t); path_side] ]
          | simpl; rewrite <- ?app_assoc; reflexivity ]
    end.
Qed.

(** ** The comment vote consumer, path by path *)

Lemma comment_result_trace msg w o w' t t' :
  comment_result g msg w o w' t → t = t' → comment_result g msg w o w' t'.
Proof. by intros ? <-. Qed.

Lemma comment_process_message_result (msg : VoteData.t) (w : World) :
  let r := comment_process_message g msg w in
  comment_result g msg w r.1.1 r.1.2 r.2.
Proof.
  apply (wp_run (comment_process_message g msg) (comment_result g msg w)).
  unfold comment_process_message, build_vote.
  destruct (decide (validate_vote_data msg = Some false)) as [Hv|Hv].
  { rewrite Hv. wp_steps. by apply CommentCorrupt. }
  apply wp_call.
  assert (∀ (m : M unit) Q,
    wp m Q w →
    wp (match validate_vote_data msg with
        | Some false => print "Ignoring invalid vote";; return_
        | _ => m
        end) Q w) as Hskip.
  { intros m Q Hm. by destruct (validate_vote_data msg) as [[]|]. }
  apply Hskip; clear Hskip.
  wp_steps.
  all: try match goal with Hne : ?x ≠ ?x |- _ => by destruct Hne end.
  all: try match goal with He : KeyError _ = TypeError |- _ => discriminate He end.
  all: try (eapply comment_result_trace;
    [ solve [eapply CommentUnresolved; path_side]
    | simpl; rewrite <- ?app_assoc; reflexivity ]).
  all: try match goal with
    | Hu : accounts _ !! _ = Some ?u, Ht : things _ !! _ = Some ?t |- _ =>
        eapply comment_result_trace;
          [ first [ solve [eapply (CommentInvalidType _ _ _ u t); path_side]
                  | solve [eapply (CommentRaised _ _ _ u t); path_side] ]
          | simpl; rewrite <- ?app_assoc; reflexivity ]
    end.
  match goal with
  | |- wp (comment_fan_out _ _ (Vote.mk ?u ?c ?d ?dt ?da ?ed ?pv) _) _ ?w1 =>
      pose proof (CommentCommitted g msg w u c (Vote.mk u c d dt da ed pv)) as Hc;
      unfold wp
  end.
  simpl in Hc.
  destruct (comment_fan_out _ _ _ _ _) as [[[[]| |e] w2] t2] eqn:Hf; simpl in *.
  all: wp_steps.
  all: eapply comment_result_trace; [apply Hc; path_side|].
  all: simpl; rewrite ?app_nil_r, <- ?app_assoc; reflexivity.
Qed.

(** ** Fan-out of a comment vote *)

Lemma comment_fan_out_frame timer (vote : Vote.t) (comment : Thing.t) (w : World) :
  let r := comment_fan_out g timer vote comment w in
  votes r.1.2 = votes w ∧ accounts r.1.2 = accounts w ∧ things r.1.2 = things w ∧
  held_locks r.1.2 = held_locks w ∧ r.1.1 ≠ Return ∧
  forallb is_quiet r.2 = true.
Proof.
  apply (wp_run (comment_fan_out g timer vote comment)
           (λ o w' t, votes w' = votes w ∧ accounts w' = accounts w ∧
              things w' = things w ∧ held_locks w' = held_locks w ∧ o ≠ Return ∧
              forallb is_quiet t = true)).
  unfold comment_fan_out, should_update_score, add_to_commentstree_q.
  wp_steps; try done.
  apply wp_add_queries. intros o w' Ho (Hv & Ha & Ht & _ & _ & Hl & _).
  destruct o; try done; wp_steps; simpl; by rewrite ?Hv, ?Ha, ?Ht, ?Hl.
Qed.


Lemma comment_fan_out_commentstree timer (vote : Vote.t) (comment : Thing.t) (w : World) :
  let r := comment_fan_out g timer vote comment w in
  let num_votes := Thing.num_votes comment in
  r.1.1 = Normal () →
  In (EvAddItem "commentstree_q" (BName (Thing._fullname comment))) r.2 ↔
    eligible vote comment = true ∧
    (num_votes ≤ comment_vote_update_threshold g ∨
     num_votes `mod` comment_vote_update_period g = 0).
Proof.
  intros r num_votes. subst r.
  apply (wp_run (comment_fan_out g timer vote comment)
           (λ o _ t, o = Normal () →
              In (EvAddItem "commentstree_q" (BName (Thing._fullname comment))) t ↔
                eligible vote comment = true ∧
                (num_votes ≤ comment_vote_update_threshold g ∨
                 num_votes `mod` comment_vote_update_period g = 0))).
  unfold comment_fan_out, should_update_score, add_to_commentstree_q, eligible.
  fold num_votes.
  wp_steps; try done.
  - apply wp_add_queries. intros o w' Ho _.
    destruct o; try done; wp_steps; try done; simpl; intros _.
    + split; [|by auto]. intros _. split; [done|]. left. by apply Z.leb_le.
    + split; [|by auto]. intros _. split; [done|]. right. by apply Z.eqb_eq.
    + split; [naive_solver|]. intros [_ [Hle|Hmod]].
      * apply Z.leb_le in Hle. congruence.
      * apply Z.eqb_eq in Hmod. congruence.
  - intros _. simpl. naive_solver.
Qed.

(** ** Which deliveries fan out *)





Lemma new_vote_fields user thing (msg : VoteData.t) (w : World) (vote : Vote.t) :
  new_vote user thing msg w = Some vote →
  Vote.user vote = user ∧ Vote.thing vote = thing ∧
  VoteData.direction msg = Some (Vote.direction vote) ∧
  Vote.previous_vote vote
    = stored_direction w (Account._id user) (Thing._fullname thing).
Proof.
  unfold new_vote, vote_args. intros Hn.
  destruct (VoteData.direction msg), (VoteData.date msg) as [value|],
    (VoteData.data msg); simpl in Hn; try done.
  all: destruct (timestamp_to_datetime value); simpl in Hn; try done.
  destruct (is_votable (Thing.cls thing)); by simplify_eq.
Qed.

(** A [Vote] is built exactly when nothing raises inside the [try] block. *)
Lemma new_vote_build_error user thing (msg : VoteData.t) (w : World) :
  is_Some (new_vote user thing msg w) ↔ build_error thing msg = None.
Proof.
  unfold new_vote, vote_args, build_error, args_error.
  destruct (VoteData.direction msg), (VoteData.date msg) as [value|],
    (VoteData.data msg); simpl.
  all: try destruct (timestamp_to_datetime value); simpl.
  all: try destruct (is_votable (Thing.cls thing)); simpl.
  all: split; intros H; try done; try (by destruct H); by eexists.
Qed.

Lemma new_vote_no_error user thing (msg : VoteData.t) (w : World) vote e :
  new_vote user thing msg w = Some vote → build_error thing msg = Some e → False.
Proof.
  intros Hnew Herr.
  assert (build_error thing msg = None) as Hnone
    by (apply (new_vote_build_error user thing msg w); by eexists).
  congruence.
Qed.

Lemma votes_commit_world (vote : Vote.t) (w : World) :
  votes (commit_world vote w)
    !! (Account._id (Vote.user vote), Thing._fullname (Vote.thing vote)) = Some vote.
Proof. apply lookup_insert_eq. Qed.

Lemma resolve_thing (msg : VoteData.t) (w : World) user thing :
  resolve msg w = Some (user, thing) →
  ∃ id name, VoteData.user_id msg = Some id ∧ accounts w !! id = Some user ∧
             VoteData.thing_fullname msg = Some name ∧ things w !! name = Some thing.
Proof. unfold resolve. intros Hr. simplify_option_eq. eauto 10. Qed.





(** ** When the comment tree is updated *)

(** C9 (as amended): when [process_message] of the comment consumer commits
    a vote and runs to completion, the comment is put on the comments-tree
    queue exactly when the vote is eligible and the comment's vote count is
    at or below the configured threshold or a multiple of the configured
    period. *)
Theorem comment_score_update_rule (msg : VoteData.t) (w : World) :
  let r := comment_process_message g msg w in
  committed r.2 = true →
  r.1.1 = Normal () →
  ∃ user comment vote,
    resolve msg w = Some (user, comment) ∧
    new_vote user comment msg w = Some vote ∧
    (In (EvAddItem "commentstree_q" (BName (Thing._fullname comment))) r.2 ↔
       eligible vote comment = true ∧
       (Thing.num_votes comment ≤ comment_vote_update_threshold g ∨
        Thing.num_votes comment `mod` comment_vote_update_period g = 0)).
Proof.
  intros r Hcommitted Hnormal. subst r.
  pose proof (comment_process_message_result msg w) as Hr. simpl in Hr.
  destruct (comment_process_message g msg w) as [[o w'] t]; simpl in *.
  inversion Hr; subst; try done.
  exists user, comment, vote. split; [done|]. split; [done|].
  destruct (comment_fan_out_frame "comment_vote_processor" vote comment
              (commit_world vote w)) as (_ & _ & _ & _ & Hret & _).
  pose proof (comment_fan_out_commentstree "comment_vote_processor" vote comment
                (commit_world vote w)) as Htree.
  simpl in Htree. subst fanned.
  destruct (comment_fan_out _ _ _ _ _).1.1 as [[]| |e] eqn:Ho; try done.
  rewrite <- Htree by done.
  rewrite !in_app_iff. simpl. naive_solver.
Qed.

(** ** One delivery and the vote store *)

Lemma vote_step (kind : TargetKind) (msg : VoteData.t) (w : World) :
  let r := vote_process_message g kind msg w in
  accounts r.1.2 = accounts w ∧ things r.1.2 = things w ∧
  held_locks r.1.2 = held_locks w ∧
  ((committed r.2 = false ∧ ¬ will_commit kind msg w ∧ votes r.1.2 = votes w) ∨
   (committed r.2 = true ∧ will_commit kind msg w ∧
    ∃ user thing vote,
      resolve msg w = Some (user, thing) ∧
      new_vote user thing msg w = Some vote ∧
      votes r.1.2 = <[(Account._id user, Thing._fullname thing) := vote]> (votes w))).
Proof.
  destruct kind; simpl.
  - pose proof (link_process_message_result msg w) as Hr. simpl in Hr.
    destruct (link_process_message g msg w) as [[o w'] t]; simpl in *.
    inversion Hr as [Hv|e Hv Hres|user link Hv Hres Hlock
                    |user link e Hv Hres Hlock Herr Hne
                    |user link Hv Hres Hlock Herr
                    |user link vote Hv Hres Hlock Hnew liked fanned]; subst.
    1-5: repeat split; try done; left; repeat split; try done.
    1-5: intros (Hv' & user' & thing' & Hres' & [vote' Hnew'] & Hlock'); try done.
    + by rewrite Hres in Hres'.
    + rewrite Hres in Hres'. simplify_eq. by apply Hlock'.
    + rewrite Hres in Hres'. simplify_eq. by eapply new_vote_no_error.
    + rewrite Hres in Hres'. simplify_eq. by eapply new_vote_no_error.
    + destruct (update_user_liked_run vote (commit_world vote w))
        as (_ & _ & Hlv & _ & Hla & Hlt & Hll & _).
      destruct (link_fan_out_run vote link liked.1.2)
        as (_ & _ & Hfv & _ & Hfa & Hft & Hfl).
      subst fanned liked. rewrite Hfa, Hft, Hfl, Hla, Hlt, Hll.
      repeat split; try done. right. split; [done|]. split.
      { split; [done|]. exists user, link. by rewrite Hnew. }
      exists user, link, vote. split; [done|]. split; [done|].
      rewrite Hfv, Hlv.
      by destruct (new_vote_fields _ _ _ _ _ Hnew) as (<- & <- & _).
  - pose proof (comment_process_message_result msg w) as Hr. simpl in Hr.
    destruct (comment_process_message g msg w) as [[o w'] t]; simpl in *.
    inversion Hr as [Hv|e Hv Hres|user comment e Hv Hres Herr Hne
                    |user comment Hv Hres Herr
                    |user comment vote Hv Hres Hnew fanned]; subst.
    1-4: repeat split; try done; left; repeat split; try done.
    1-4: intros (Hv' & user' & thing' & Hres' & [vote' Hnew'] & Hlock'); try done.
    + by rewrite Hres in Hres'.
    + rewrite Hres in Hres'. simplify_eq. by eapply new_vote_no_error.
    + rewrite Hres in Hres'. simplify_eq. by eapply new_vote_no_error.
    + destruct (comment_fan_out_frame "comment_vote_processor" vote comment
                  (commit_world vote w)) as (Hfv & Hfa & Hft & Hfl & _).
      subst fanned. rewrite Hfa, Hft, Hfl.
      repeat split; try done. right. split; [done|]. split.
      { split; [done|]. exists user, comment. by rewrite Hnew. }
      exists user, comment, vote. split; [done|]. split; [done|].
      rewrite Hfv.
      by destruct (new_vote_fields _ _ _ _ _ Hnew) as (<- & <- & _).
Qed.

Lemma resolve_stable (msg : VoteData.t) (w w' : World) :
  accounts w' = accounts w → things w' = things w → resolve msg w' = resolve msg w.
Proof. unfold resolve. by intros -> ->. Qed.

Lemma will_commit_stable (kind : TargetKind) (msg : VoteData.t) (w w' : World) :
  accounts w' = accounts w → things w' = things w → held_locks w' = held_locks w →
  will_commit kind msg w → will_commit kind msg w'.
Proof.
  intros Ha Ht Hl (Hv & user & thing & Hres & Hnew & Hlock).
  split; [done|]. exists user, thing.
  rewrite (resolve_stable msg w w') by done. rewrite Hl.
  split; [done|]. split; [|done].
  apply new_vote_build_error. by apply (new_vote_build_error user thing msg w).
Qed.

Lemma resolve_consistent (msg : VoteData.t) (w : World) u t user thing :
  db_consistent w →
  VoteData.user_id msg = Some u → VoteData.thing_fullname msg = Some t →
  resolve msg w = Some (user, thing) →
  Account._id user = u ∧ Thing._fullname thing = t.
Proof.
  intros [Ha Ht] Hu Hn Hres.
  destruct (resolve_thing _ _ _ _ Hres) as (id & name & Hid & Hacc & Hname & Hthing).
  simplify_eq. split; [by apply (Ha _ _ Hacc)|by apply (Ht _ _ Hthing)].
Qed.

Lemma consume_items_app process_message (msgs1 msgs2 : list VoteData.t) (w : World) :
  consume_items process_message (msgs1 ++ msgs2) w
    = consume_items process_message msgs2 (consume_items process_message msgs1 w).
Proof. apply foldl_app. Qed.

(** ** Sequences of deliveries *)

Lemma commits_will_commit (kind : TargetKind) (msg : VoteData.t) (w : World) :
  commits kind w msg = true ↔ will_commit kind msg w.
Proof.
  unfold commits, will_commit.
  rewrite andb_true_iff, negb_true_iff, bool_decide_eq_false. split.
  - intros [Hv H]. split; [done|].
    destruct (resolve msg w) as [[user thing]|]; [|done].
    apply andb_true_iff in H as [Hb Hk]. apply bool_decide_eq_true in Hb.
    exists user, thing. split; [done|]. split; [by apply new_vote_build_error|].
    intros ->. by apply bool_decide_eq_true in Hk.
  - intros (Hv & user & thing & Hres & Hnew & Hlock). split; [done|].
    rewrite Hres. apply andb_true_iff. split.
    + apply bool_decide_eq_true. by apply (new_vote_build_error user thing msg w).
    + destruct kind; [|done]. apply bool_decide_eq_true. auto.
Qed.

Lemma commits_stable (kind : TargetKind) (msg : VoteData.t) (w w' : World) :
  accounts w' = accounts w → things w' = things w → held_locks w' = held_locks w →
  commits kind w' msg = commits kind w msg.
Proof. unfold commits, resolve. by intros -> -> ->. Qed.

Lemma committed_commits (kind : TargetKind) (msg : VoteData.t) (w : World) :
  committed (vote_process_message g kind msg w).2 = commits kind w msg.
Proof.
  destruct (vote_step kind msg w) as (_ & _ & _ & [(-> & Hno & _)|(-> & Hyes & _)]).
  - symmetry. apply not_true_is_false. by rewrite commits_will_commit.
  - symmetry. by apply commits_will_commit.
Qed.

(** C1: a delivery commits exactly when its payload is not flagged by the
    validation hook, actor and target are on file, the [Vote] is built
    without an exception and, for the link consumer, the lock of the pair is
    free ([commits]).  Whatever sequence of deliveries by one actor on one
    target a vote consumer processes (messages may repeat and come in any
    order), the direction on record for that (actor, target) at the end is
    the direction of the last delivery of the sequence that commits, or the
    direction on record at the start when none does; and delivering a
    message once more right after it was processed leaves every recorded
    direction as it is.  [Vote.commit] is modelled as the upsert keyed by
    (actor, target). *)
Theorem final_direction_is_last_committed (kind : TargetKind) (user : Z)
    (thing : string) (msgs : list VoteData.t) (w : World) :
  db_consistent w →
  Forall (λ msg, VoteData.user_id msg = Some user ∧
                 VoteData.thing_fullname msg = Some thing) msgs →
  let process_message := vote_process_message g kind in
  (∀ (msg : VoteData.t) (w' : World),
     committed (process_message msg w').2 = commits kind w' msg) ∧
  stored_direction (consume_items process_message msgs w) user thing =
    match last (List.filter (commits kind w) msgs) with
    | Some msg => VoteData.direction msg
    | None => stored_direction w user thing
    end ∧
  ∀ (msg : VoteData.t) (u : Z) (t : string),
    stored_direction (consume_items process_message (msgs ++ [msg; msg]) w) u t =
    stored_direction (consume_items process_message (msgs ++ [msg]) w) u t.
Proof.
  intros Hdb Hmsgs process_message. split; [|split].
  - intros msg w'. apply committed_commits.
  - revert w Hdb. induction Hmsgs as [|msg msgs [Hu Ht] Hmsgs IH]; intros w Hdb; [done|].
    change (consume_items process_message (msg :: msgs) w)
      with (consume_items process_message msgs (process_message msg w).1.2).
    destruct (vote_step kind msg w) as (Ha & Hth & Hl & Hstep).
    fold process_message in Ha, Hth, Hl, Hstep.
    rewrite IH by (destruct Hdb; split; [by rewrite Ha|by rewrite Hth]).
    rewrite (List.filter_ext _ (commits kind w))
      by (intros m; by apply commits_stable).
    cbn [List.filter].
    destruct Hstep as [(_ & Hno & Hvotes)|(_ & Hyes & a & th & vote & Hres & Hnew & Hvotes)].
    + rewrite (not_true_is_false _ (λ H, Hno (proj1 (commits_will_commit _ _ _) H))).
      destruct (last _); [done|]. unfold stored_direction. by rewrite Hvotes.
    + rewrite (proj2 (commits_will_commit _ _ _) Hyes). rewrite last_cons.
      destruct (last _); [done|]. unfold stored_direction. rewrite Hvotes.
      destruct (resolve_consistent _ _ _ _ _ _ Hdb Hu Ht Hres) as [-> ->].
      rewrite lookup_insert_eq. simpl.
      by destruct (new_vote_fields _ _ _ _ _ Hnew) as (_ & _ & -> & _).
  - intros msg u t. rewrite !consume_items_app.
    generalize (consume_items process_message msgs w). intros w0. simpl.
    destruct (vote_step kind msg w0) as (Ha & Hth & Hl & Hstep).
    fold process_message in Ha, Hth, Hl, Hstep.
    set (w1 := (process_message msg w0).1.2) in *.
    destruct (vote_step kind msg w1) as (_ & _ & _ & Hstep').
    fold process_message in Hstep'.
    unfold stored_direction.
    destruct Hstep as [(_ & Hno & Hvotes)|(_ & Hyes & a & th & vote & Hres & Hnew & Hvotes)];
      destruct Hstep'
        as [(_ & Hno' & Hvotes')|(_ & Hyes' & a' & th' & vote' & Hres' & Hnew' & Hvotes')].
    + by rewrite Hvotes'.
    + destruct Hno. by apply (will_commit_stable kind msg w1 w0).
    + destruct Hno'. by apply (will_commit_stable kind msg w0 w1).
    + rewrite Hvotes', Hvotes.
      rewrite (resolve_stable msg w0 w1) in Hres' by done.
      rewrite Hres in Hres'. simplify_eq.
      destruct (decide ((Account._id a', Thing._fullname th') = (u, t))) as [<-|Hne].
      * rewrite !lookup_insert_eq. simpl.
        destruct (new_vote_fields _ _ _ _ _ Hnew) as (_ & _ & Hd & _).
        destruct (new_vote_fields _ _ _ _ _ Hnew') as (_ & _ & Hd' & _).
        congruence.
      * by rewrite !lookup_insert_ne.
Qed.

(** ** The scope of the vote lock *)

Lemma lock_scoped_app_quiet lock phase (t t' : list Event) :
  forallb is_quiet t = true →
  lock_scoped lock phase (t ++ t') = lock_scoped lock phase t'.
Proof.
  induction t as [|e t IH]; [done|]. simpl. intros [He Ht]%andb_true_iff.
  rewrite <- (IH Ht). by destruct e, phase.
Qed.

Lemma lock_scoped_app_liked lock (vote : Vote.t) (t' : list Event) :
  lock_scoped lock InLock (liked_trace vote ++ t') = lock_scoped lock InLock t'.
Proof. unfold liked_trace. by destruct vote as [u th [] dt da ed [[]|]]. Qed.

Lemma link_fan_out_trace_quiet (vote : Vote.t) (link : Thing.t) :
  forallb is_quiet (link_fan_out_trace g vote link) = true.
Proof.
  unfold link_fan_out_trace.
  destruct (eligible vote link); [|done].
  by destruct (domain_permutations (Thing.url link)).
Qed.

Lemma quiet_no_lock_or_liked (t : list Event) :
  forallb is_quiet t = true → existsb is_lock_or_liked t = false.
Proof.
  induction t as [|e t IH]; [done|]. simpl. intros [He Ht]%andb_true_iff.
  rewrite (IH Ht). by destruct e.
Qed.

(** C2 (as amended): the link consumer keeps the vote commit and the update
    of the actor's liked / disliked listings inside one scope of the lock
    ["voting"], ["vote-<actor id36>-<link fullname>"] taken with timeout 5.
    In every trace of its [process_message] that lock is acquired at most
    once and released once, and every commit and every liked / disliked
    update lies between the two.  A committed delivery has exactly the trace
    given below: the acquisition, the commit, the listing update, the
    release, and only then the fan-out.  When the lock is held elsewhere
    nothing is committed.  The comment consumer takes no lock and never
    updates the liked / disliked listings. *)
Theorem link_vote_committed_under_lock :
  (∀ (msg : VoteData.t) (w : World),
     lock_scoped (vote_lock msg w) BeforeLock (link_process_message g msg w).2 = true) ∧
  (∀ (msg : VoteData.t) (w : World),
     committed (link_process_message g msg w).2 = true →
     ∃ user link vote,
       resolve msg w = Some (user, link) ∧
       new_vote user link msg w = Some vote ∧
       let key := "vote-" +:+ Account._id36 user +:+ "-" +:+ Thing._fullname link in
       (link_process_message g msg w).2 =
         [EvTimerStart "link_vote_processor";
          EvLockAcquire "voting" key 5;
          EvPrint "Processing vote";
          EvCommit (Account._id user) (Thing._fullname link) (Vote.direction vote);
          EvTimerIntermediate "link_vote_processor" "create_vote_object"]
         ++ liked_trace vote
         ++ [EvTimerIntermediate "link_vote_processor" "voter_likes";
             EvLockRelease "voting" key]
         ++ link_fan_out_trace g vote link
         ++ [EvTimerStop "link_vote_processor"; EvTimerFlush "link_vote_processor"]) ∧
  (∀ (msg : VoteData.t) (w : World) (user : Account.t) (link : Thing.t),
     resolve msg w = Some (user, link) →
     ("voting"%string, vote_lock_key user link) ∈ held_locks w →
     committed (link_process_message g msg w).2 = false ∧
     (link_process_message g msg w).1.2 = w) ∧
  (∀ (msg : VoteData.t) (w : World),
     existsb is_lock_or_liked (comment_process_message g msg w).2 = false).
Proof.
  split; [|split; [|split]].
  - intros msg w.
    pose proof (link_process_message_result msg w) as Hr. simpl in Hr.
    destruct (link_process_message g msg w) as [[o w'] t]; simpl in *.
    inversion Hr as [Hv|e Hv Hres|user link Hv Hres Hlock
                    |user link e Hv Hres Hlock Herr Hne
                    |user link Hv Hres Hlock Herr
                    |user link vote Hv Hres Hlock Hnew liked fanned]; subst; try done.
    + unfold vote_lock. rewrite Hres. simpl. by rewrite !bool_decide_true.
    + unfold vote_lock. rewrite Hres. simpl. by rewrite !bool_decide_true.
    + destruct (update_user_liked_run vote (commit_world vote w)) as (_ & Hlt & _).
      destruct (link_fan_out_run vote link liked.1.2) as (_ & Hft & _).
      subst fanned liked. rewrite Hlt, Hft.
      unfold vote_lock. rewrite Hres. simpl.
      rewrite !bool_decide_true by done. simpl.
      rewrite lock_scoped_app_liked. simpl.
      rewrite bool_decide_true by done. simpl.
      by rewrite lock_scoped_app_quiet by apply link_fan_out_trace_quiet.
  - intros msg w Hcommitted.
    pose proof (link_process_message_result msg w) as Hr. simpl in Hr.
    destruct (link_process_message g msg w) as [[o w'] t]; simpl in *.
    inversion Hr as [Hv|e Hv Hres|user link Hv Hres Hlock
                    |user link e Hv Hres Hlock Herr Hne
                    |user link Hv Hres Hlock Herr
                    |user link vote Hv Hres Hlock Hnew liked fanned]; subst;
      try done.
    exists user, link, vote. split; [done|]. split; [done|].
    destruct (update_user_liked_run vote (commit_world vote w)) as (_ & Hlt & _).
    destruct (link_fan_out_run vote link liked.1.2) as (_ & Hft & _).
    subst fanned liked. by rewrite Hlt, Hft.
  - intros msg w user link Hres Hheld.
    pose proof (link_process_message_result msg w) as Hr. simpl in Hr.
    destruct (link_process_message g msg w) as [[o w'] t]; simpl in *.
    inversion Hr as [Hv|e Hv Hres'|user' link' Hv Hres' Hlock
                    |user' link' e Hv Hres' Hlock Herr Hne
                    |user' link' Hv Hres' Hlock Herr
                    |user' link' vote Hv Hres' Hlock Hnew liked fanned]; subst;
      try done.
    all: rewrite Hres in Hres'; simplify_eq; done.
  - intros msg w.
    pose proof (comment_process_message_result msg w) as Hr. simpl in Hr.
    destruct (comment_process_message g msg w) as [[o w'] t]; simpl in *.
    inversion Hr as [Hv|e Hv Hres|user comment e Hv Hres Herr Hne
                    |user comment Hv Hres Herr
                    |user comment vote Hv Hres Hnew fanned]; subst; try done.
    destruct (comment_fan_out_frame "comment_vote_processor" vote comment
                (commit_world vote w)) as (_ & _ & _ & _ & _ & Hquiet).
    subst fanned. simpl. rewrite !existsb_app.
    rewrite (quiet_no_lock_or_liked _ Hquiet). simpl.
    by destruct (comment_fan_out _ _ _ _ _).1.1.
Qed.

(** ** Batches of the query consumers *)





(** C7 (as amended): the loop over the dimension groups of a batch has no
    handler: when the update of one group raises (its listing lock times
    out, say), the exception leaves [process_message] at once, with the
    state and the trace reached at the failing group; the groups after it in
    iteration order are not processed. *)
Theorem group_failure_aborts_batch (msgs : list string) (w w1 w2 : World)
    (links : list Thing.t) (e : Exn) (t1 t2 : list Event) :
  Things_by_fullname (batch_names msgs) w = (Normal links, w, []) →
  let prefix := [EvByFullname (batch_names msgs); EvPrint "Processing"] in
  (∀ authors pre group post,
     Account_byIDs (group_by_key Thing.author_id links).*1 w = (Normal authors, w, []) →
     group_by_key Thing.author_id links = pre ++ group :: post →
     for_each pre (author_group authors) w = (Normal (), w1, t1) →
     author_group authors group w1 = (Raise e, w2, t2) →
     author_process_message msgs w = (Raise e, w2, prefix ++ t1 ++ t2)) ∧
  (∀ srs pre group post,
     Subreddit_byIDs (group_by_key Thing.sr_id links).*1 w = (Normal srs, w, []) →
     group_by_key Thing.sr_id links = pre ++ group :: post →
     for_each pre (subreddit_group srs) w = (Normal (), w1, t1) →
     subreddit_group srs group w1 = (Raise e, w2, t2) →
     subreddit_process_message msgs w = (Raise e, w2, prefix ++ t1 ++ t2)) ∧
  (∀ pre group post,
     group_by_domain links = pre ++ group :: post →
     for_each pre domain_group w = (Normal (), w1, t1) →
     domain_group group w1 = (Raise e, w2, t2) →
     domain_process_message msgs w = (Raise e, w2, prefix ++ t1 ++ t2)).
Proof.
  intros Hlinks prefix. split; [|split].
  - intros authors pre group post Hauthors Hgroups Hpre Hgroup.
    apply wp_eq. unfold author_process_message, Link_by_fullnames.
    fold (batch_names msgs).
    apply wp_call, wp_bind, wp_bind, wp_emit.
    eapply wp_value; [exact Hlinks|]. wp_steps.
    eapply wp_value; [exact Hauthors|]. lazy beta iota.
    eapply wp_value; [rewrite Hgroups; eapply for_each_abort; eassumption|].
    done.
  - intros srs pre group post Hsrs Hgroups Hpre Hgroup.
    apply wp_eq. unfold subreddit_process_message, Link_by_fullnames.
    fold (batch_names msgs).
    apply wp_call, wp_bind, wp_bind, wp_emit.
    eapply wp_value; [exact Hlinks|]. wp_steps.
    eapply wp_value; [exact Hsrs|]. lazy beta iota.
    eapply wp_value; [rewrite Hgroups; eapply for_each_abort; eassumption|].
    done.
  - intros pre group post Hgroups Hpre Hgroup.
    apply wp_eq. unfold domain_process_message, Link_by_fullnames.
    fold (batch_names msgs).
    apply wp_call, wp_bind, wp_bind, wp_emit.
    eapply wp_value; [exact Hlinks|]. wp_steps.
    eapply wp_value; [rewrite Hgroups; eapply for_each_abort; eassumption|].
    done.
Qed.

(** ** The voter's listings after a commit *)

(** C3: [update_user_liked] first takes the target out of the listing that
    matches the previous vote (liked after an upvote, disliked after a
    downvote, nothing without a previous vote), then puts it into the liked
    listing iff the new vote is up and into the disliked listing iff it is
    down; nothing else is asked of the mutator.  In particular a vote that
    changes from up to down leaves the target out of the liked listing and
    in the disliked one.  The link consumer applies this update to every
    vote it commits, the previous vote being the direction on record, and
    leaves the listings as the update made them. *)
Theorem update_user_liked_moves_target :
  (∀ (vote : Vote.t) (w : World),
     let user := Account._id (Vote.user vote) in
     let target := Thing._fullname (Vote.thing vote) in
     let r := update_user_liked vote w in
     let without (d : Direction) (q : Query) :=
       if bool_decide (Vote.previous_vote vote = Some d)
       then listing w q ∖ {[target]} else listing w q in
     let with_ (d : Direction) (s : gset string) :=
       if bool_decide (Vote.direction vote = d) then s ∪ {[target]} else s in
     r.1.1 = Normal () ∧
     r.2 = liked_trace vote ∧
     listing r.1.2 (get_liked user) = with_ DirUp (without DirUp (get_liked user)) ∧
     listing r.1.2 (get_disliked user)
       = with_ DirDown (without DirDown (get_disliked user))) ∧
  (∀ (user : Account.t) (thing : Thing.t) date data event_data (w : World),
     let vote := Vote.mk user thing DirDown date data event_data (Some DirUp) in
     let w' := (update_user_liked vote w).1.2 in
     Thing._fullname thing ∉ listing w' (get_liked (Account._id user)) ∧
     Thing._fullname thing ∈ listing w' (get_disliked (Account._id user))) ∧
  (∀ (msg : VoteData.t) (w : World),
     let r := link_process_message g msg w in
     committed r.2 = false ∨
     ∃ user link vote,
       resolve msg w = Some (user, link) ∧
       new_vote user link msg w = Some vote ∧
       Vote.previous_vote vote
         = stored_direction w (Account._id user) (Thing._fullname link) ∧
       listings r.1.2 = listings (update_user_liked vote (commit_world vote w)).1.2).
Proof.
  assert (∀ (vote : Vote.t) (w : World),
    let user := Account._id (Vote.user vote) in
    let target := Thing._fullname (Vote.thing vote) in
    let r := update_user_liked vote w in
    listing r.1.2 (get_liked user) =
      (if bool_decide (Vote.direction vote = DirUp)
       then (if bool_decide (Vote.previous_vote vote = Some DirUp)
             then listing w (get_liked user) ∖ {[target]}
             else listing w (get_liked user)) ∪ {[target]}
       else (if bool_decide (Vote.previous_vote vote = Some DirUp)
             then listing w (get_liked user) ∖ {[target]}
             else listing w (get_liked user))) ∧
    listing r.1.2 (get_disliked user) =
      (if bool_decide (Vote.direction vote = DirDown)
       then (if bool_decide (Vote.previous_vote vote = Some DirDown)
             then listing w (get_disliked user) ∖ {[target]}
             else listing w (get_disliked user)) ∪ {[target]}
       else (if bool_decide (Vote.previous_vote vote = Some DirDown)
             then listing w (get_disliked user) ∖ {[target]}
             else listing w (get_disliked user)))) as Hlist.
  { intros vote w user target.
    apply (wp_run (update_user_liked vote)
             (λ _ w' _, (listing w' (get_liked user) = _) ∧
                        (listing w' (get_disliked user) = _))).
    subst user target.
    unfold update_user_liked, Vote.is_upvote, Vote.is_downvote.
    destruct vote as [u th d dt da ed [[]|]], d; simpl; wp_steps; simpl.
    all: rewrite ?listing_insert; simpl.
    all: repeat case_decide; try done.
    all: split; set_solver. }
  split; [|split].
  - intros vote w user target r without with_.
    destruct (update_user_liked_run vote w) as (Ho & Ht & _).
    destruct (Hlist vote w) as [Hl Hd].
    by repeat split.
  - intros user thing date data event_data w vote w'.
    destruct (Hlist vote w) as [Hl Hd].
    subst w'.
    change (Account._id (Vote.user vote)) with (Account._id user) in Hl, Hd.
    change (Thing._fullname (Vote.thing vote)) with (Thing._fullname thing) in Hl, Hd.
    rewrite Hl, Hd. simpl. set_solver.
  - intros msg w.
    pose proof (link_process_message_result msg w) as Hr. simpl in Hr.
    destruct (link_process_message g msg w) as [[o w'] t]; simpl in *.
    inversion Hr as [Hv|e Hv Hres|user link Hv Hres Hlock
                    |user link e Hv Hres Hlock Herr Hne
                    |user link Hv Hres Hlock Herr
                    |user link vote Hv Hres Hlock Hnew liked fanned]; subst;
      try (by left).
    right. exists user, link, vote. split; [done|]. split; [done|]. split.
    + by destruct (new_vote_fields _ _ _ _ _ Hnew) as (_ & _ & _ & ->).
    + destruct (link_fan_out_run vote link liked.1.2) as (_ & _ & _ & Hl & _).
      subst fanned liked. by rewrite Hl.
Qed.

(** ** Corrupt payloads *)

Lemma corrupt_run (kind : TargetKind) (msg : VoteData.t) (w : World) :
  validate_vote_data msg = Some false →
  vote_process_message g kind msg w
    = (Normal (), w, [EvPrint "Ignoring invalid vote"]).
Proof.
  intros Hv.
  destruct kind; simpl.
  - pose proof (link_process_message_result msg w) as Hr. simpl in Hr.
    destruct (link_process_message g msg w) as [[o w'] t]; simpl in Hr.
    inversion Hr; subst; done.
  - pose proof (comment_process_message_result msg w) as Hr. simpl in Hr.
    destruct (comment_process_message g msg w) as [[o w'] t]; simpl in Hr.
    inversion Hr; subst; done.
Qed.

(** C5: a payload the validation hook flags as corrupt is dropped by either
    consumer.  The decorated [process_message] returns normally and leaves
    the state as it was; the only calls it makes are the print of the
    rejection and the flush of the queue's metrics by the decorator, so no
    Vote is created and nothing is fanned out.  The flush is that of
    [g.stats.amqp_processor], which is modelled from the spec; the body of
    [process_message] returns before it obtains its own timer. *)
Theorem corrupt_message_is_dropped (kind : TargetKind) (qname : string)
    (msg : VoteData.t) (w : World) :
  validate_vote_data msg = Some false →
  let r := decorated_process_message g kind qname msg w in
  r = (Normal (), w, [EvPrint "Ignoring invalid vote"; EvStatsFlush qname]) ∧
  committed r.2 = false ∧ fanned_out r.2 = false ∧
  votes r.1.2 = votes w ∧ queues r.1.2 = queues w ∧ listings r.1.2 = listings w ∧
  last r.2 = Some (EvStatsFlush qname).
Proof.
  intros Hv r.
  assert (r = (Normal (), w, [EvPrint "Ignoring invalid vote"; EvStatsFlush qname]))
    as ->; [|done].
  subst r. unfold decorated_process_message, amqp_processor.
  by rewrite corrupt_run.
Qed.

(** ** The domain queue *)

(** C6: [add_to_domain_query_q] appends the link's fullname to exactly one
    queue, the one named after [hash(hostname) % 10] when domain queues are
    sharded and [domain_query_q] otherwise, if the link's URL has at least
    one domain permutation; with no permutation it returns without touching
    any queue.  It never raises. *)
Theorem domain_fan_out_iff_valid_domain (link : Thing.t) (w : World) :
  let r := add_to_domain_query_q g link w in
  let url := Thing.url link in
  let item := BName (Thing._fullname link) in
  r.1.1 = Normal () ∧
  (∀ name : string,
     queue r.1.2 name =
       if bool_decide (domain_permutations url ≠ [] ∧ domain_queue_name g url = name)
       then queue w name ++ [item] else queue w name) ∧
  r.2 = (if bool_decide (domain_permutations url ≠ [])
         then [EvAddItem (domain_queue_name g url) item] else []) ∧
  domain_queue_name g url =
    (if shard_domain_query_queues g
     then "domain_query_" +:+ pretty (hash (hostname url) `mod` 10) +:+ "_q"
     else "domain_query_q") ∧
  0 ≤ hash (hostname url) `mod` 10 < 10.
Proof.
  intros r url item. subst r.
  split; [|split; [|split; [|split]]].
  - apply (wp_run (add_to_domain_query_q g link) (λ o _ _, o = Normal ())).
    unfold add_to_domain_query_q. wp_steps; done.
  - intros name.
    apply (wp_run (add_to_domain_query_q g link)
             (λ _ w' _, queue w' name =
                if bool_decide (domain_permutations url ≠ [] ∧
                                domain_queue_name g url = name)
                then queue w name ++ [item] else queue w name)).
    unfold add_to_domain_query_q. fold url. wp_steps; simpl.
    + done.
    + rewrite queue_insert. fold item.
      case_decide as Hn; case_bool_decide as Hb.
      * by rewrite Hn.
      * destruct Hb. by split.
      * by destruct Hb.
      * done.
  - apply (wp_run (add_to_domain_query_q g link)
             (λ _ _ t, t = if bool_decide (domain_permutations url ≠ [])
                           then [EvAddItem (domain_queue_name g url) item] else [])).
    unfold add_to_domain_query_q. fold url. wp_steps; simpl; done.
  - done.
  - apply Z.mod_pos_bound. lia.
Qed.

(** ** Recording the intent *)

(** C8 (as amended): [update_vote_lookups] writes the serialised direction
    under the prequeued-vote key with a time-to-live of
    [int(grace_period.total_seconds()) + 1], then touches the actor's
    last-modified marker; when the cache write raises, the exception leaves
    [update_vote_lookups] and [cast_vote] before the marker is touched and
    before anything is enqueued.  The time-to-live is the grace period in
    whole seconds plus one for every grace period of whole seconds and for
    every grace period shorter than [2 ** 33] seconds; beyond that the float
    that [total_seconds()] returns can round up to the next second, as it
    does for [timedelta.max]. *)
Theorem vote_intent_recorded (request : Request) (user : Account.t)
    (thing : Thing.t) (direction : Direction) (data : Data) (w : World) :
  let key := prequeued_vote_key user thing in
  let ttl := int_total_seconds (vote_queue_grace_period g) + 1 in
  let value := serialize_direction direction in
  let marker := (Account._fullname user, last_modified_name (Thing.cls thing)) in
  let recorded :=
    with_last_modified (λ s, {[marker]} ∪ s)
      (with_gencache <[key := (value, ttl)]> w) in
  let cast := cast_vote g request user thing direction data w in
  update_vote_lookups g user thing direction w =
    (if cache_down w then (Raise CacheError, w, [])
     else (Normal (), recorded, [EvCacheSet key value ttl; EvTouch marker.1 marker.2])) ∧
  (if cache_down w then cast = (Raise CacheError, w, [])
   else cast.1.1 = Normal () ∧
        gencache cast.1.2 !! key = Some (value, ttl) ∧
        marker ∈ last_modified cast.1.2 ∧
        take 2 cast.2 = [EvCacheSet key value ttl; EvTouch marker.1 marker.2]) ∧
  (∀ d s : Z,
     Z.abs (d * 86400 + s) < 2 ^ 53 →
     int_total_seconds {| days := d; seconds := s; microseconds := 0 |} = d * 86400 + s) ∧
  (∀ td : timedelta,
     Z.abs (total_microseconds td) < 2 ^ 33 * 1000000 →
     int_total_seconds td = Z.quot (total_microseconds td) 1000000) ∧
  int_total_seconds timedelta_max = 86400000000000.
Proof.
  intros key ttl value marker recorded cast.
  assert (update_vote_lookups g user thing direction w =
    (if cache_down w then (Raise CacheError, w, [])
     else (Normal (), recorded, [EvCacheSet key value ttl; EvTouch marker.1 marker.2])))
    as Hlookups.
  { unfold update_vote_lookups, gencache_set, LastModified_touch.
    unfold call, mbind, M_bind, gets, emit, modify, raise; simpl.
    by destruct (cache_down w). }
  split; [done|split; [|split; [|split]]].
  - subst cast. destruct (cache_down w) eqn:Hdown.
    + apply wp_eq. unfold cast_vote.
      apply wp_call, wp_bind. by eapply wp_value.
    + apply (wp_run (cast_vote g request user thing direction data)
               (λ o w' t, o = Normal () ∧ gencache w' !! key = Some (value, ttl) ∧
                  marker ∈ last_modified w' ∧
                  take 2 t = [EvCacheSet key value ttl; EvTouch marker.1 marker.2])).
      unfold cast_vote.
      apply wp_call, wp_bind. eapply wp_value; [done|].
      wp_steps. simpl. repeat split.
      * apply lookup_insert_eq.
      * set_solver.
  - intros d s Hds. unfold int_total_seconds, total_microseconds; simpl.
    rewrite Z.add_0_r. by apply int_true_div_exact.
  - intros td Htd. by apply int_true_div_below.
  - by vm_compute.
Qed.

End Consumers.

Lemma corrupt_message_is_dropped_witness :
  let r :=
    decorated_process_message (collab := demo_collab) demo_globals KComment
      "vote_comment_q" corrupt_msg demo_world in
  validate_vote_data (Collab := demo_collab) corrupt_msg = Some false ∧
  r = (Normal (), demo_world,
       [EvPrint "Ignoring invalid vote"; EvStatsFlush "vote_comment_q"]) ∧
  committed r.2 = false ∧ fanned_out r.2 = false ∧
  votes r.1.2 = votes demo_world ∧ queues r.1.2 = queues demo_world ∧
  listings r.1.2 = listings demo_world ∧
  last r.2 = Some (EvStatsFlush "vote_comment_q").
Proof.
  intros r. split; [reflexivity|].
  apply (corrupt_message_is_dropped (collab := demo_collab)). reflexivity.
Defined.

(** C8, as stated, fails: with the cache backend down the write raises and
    the exception reaches the caller of [cast_vote]; nothing is logged and
    nothing is enqueued. *)
Lemma cache_failure_reaches_caller :
  cache_down cache_down_world = true ∧
  update_vote_lookups (collab := demo_collab) demo_globals alice link_a DirUp
    cache_down_world = (Raise CacheError, cache_down_world, []) ∧
  cast_vote (collab := demo_collab) demo_globals {| ip := None; now := 0 |}
    alice link_a DirUp ∅ cache_down_world = (Raise CacheError, cache_down_world, []).
Proof. by vm_compute. Qed.

(** C7, as stated, fails: in a batch with the links of authors 1 and 2, the
    lock timeout on author 1's listing ends [process_message]; the link of
    author 2 is never handed to [add_queries] and stays out of that
    author's listing, although on its own it is processed without error.
    (The groups are visited in the order 1, 2, which is also the order in
    which CPython walks a dict with the keys 1 and 2.) *)
Lemma failing_group_aborts_next_group :
  let batch := author_process_message ["t3_a"; "t3_b"]%string busy_world in
  let alone := author_process_message ["t3_b"]%string busy_world in
  (group_by_key Thing.author_id [link_a; link_b]).*1 = [1; 2] ∧
  batch.1.1 = Raise TimeoutExpired ∧
  add_queries_calls batch.2
    = [((λ sort, get_submitted 1 sort "all") <$> SORTS, ["t3_a"%string])] ∧
  ("t3_b"%string ∉ listing batch.1.2 (get_submitted 2 "hot" "all")) ∧
  alone.1.1 = Normal () ∧
  "t3_b"%string ∈ listing alone.1.2 (get_submitted 2 "hot" "all").
Proof.
  repeat split; by vm_compute.
Qed.

(** ** The concrete deployment *)

Lemma demo_world_consistent : db_consistent demo_world.
Proof. split; refine (bool_decide_unpack _ _); by vm_compute. Defined.

Lemma demo_world_authors_on_file : authors_on_file demo_world.
Proof. refine (bool_decide_unpack _ _). by vm_compute. Defined.


Lemma final_direction_is_last_committed_witness :
  let process_message :=
    vote_process_message (collab := demo_collab) demo_globals KLink in
  db_consistent demo_world ∧
  Forall (λ msg, VoteData.user_id msg = Some 1 ∧
                 VoteData.thing_fullname msg = Some "t3_a"%string) mixed_deliveries ∧
  List.filter (commits (collab := demo_collab) KLink demo_world) mixed_deliveries
    = [vote_msg 1 "t3_a" DirDown; vote_msg 1 "t3_a" DirUp] ∧
  stored_direction (consume_items process_message mixed_deliveries demo_world) 1 "t3_a"
    = Some DirUp ∧
  (∀ (msg : VoteData.t) (w' : World),
     committed (process_message msg w').2 = commits (collab := demo_collab) KLink w' msg) ∧
  stored_direction (consume_items process_message mixed_deliveries demo_world) 1 "t3_a" =
    match last (List.filter (commits (collab := demo_collab) KLink demo_world)
                  mixed_deliveries) with
    | Some msg => VoteData.direction msg
    | None => stored_direction demo_world 1 "t3_a"
    end ∧
  ∀ (msg : VoteData.t) (u : Z) (t : string),
    stored_direction
      (consume_items process_message (mixed_deliveries ++ [msg; msg]) demo_world) u t =
    stored_direction
      (consume_items process_message (mixed_deliveries ++ [msg]) demo_world) u t.
Proof.
  intros process_message.
  split; [exact demo_world_consistent|].
  split; [by repeat constructor|].
  split; [by vm_compute|]. split; [by vm_compute|].
  apply (final_direction_is_last_committed (collab := demo_collab)).
  - exact demo_world_consistent.
  - by repeat constructor.
Defined.

(** C2, as stated, fails for the comment consumer: it commits the vote
    without taking any lock and without touching the liked / disliked
    listings. *)
Lemma comment_vote_committed_without_lock :
  let trace :=
    (comment_process_message (collab := demo_collab) demo_globals
       (vote_msg 1 "t1_c" DirUp) demo_world).2 in
  committed trace = true ∧
  existsb is_lock_or_liked trace = false ∧
  lock_scoped (vote_lock (vote_msg 1 "t1_c" DirUp) demo_world) BeforeLock trace = false.
Proof. by vm_compute. Qed.



(** C9, as stated, fails: a comment whose vote count equals the threshold
    (5, which is neither below 5 nor a multiple of the period 3) is still put
    on the comments-tree queue. *)
Lemma score_update_at_threshold :
  let r :=
    comment_process_message (collab := demo_collab) demo_globals
      (vote_msg 1 "t1_c" DirUp) demo_world in
  Thing.num_votes comment_c = comment_vote_update_threshold demo_globals ∧
  Thing.num_votes comment_c `mod` comment_vote_update_period demo_globals ≠ 0 ∧
  committed r.2 = true ∧
  r.1.1 = Normal () ∧
  In (EvAddItem "commentstree_q" (BName "t1_c")) r.2.
Proof.
  repeat split; try by vm_compute.
  vm_compute. tauto.
Qed.

Lemma comment_score_update_rule_witness :
  let msg := vote_msg 1 "t1_c" DirUp in
  let r := comment_process_message (collab := demo_collab) demo_globals msg demo_world in
  committed r.2 = true ∧
  r.1.1 = Normal () ∧
  ∃ user comment vote,
    resolve msg demo_world = Some (user, comment) ∧
    new_vote user comment msg demo_world = Some vote ∧
    (In (EvAddItem "commentstree_q" (BName (Thing._fullname comment))) r.2 ↔
       eligible (collab := demo_collab) vote comment = true ∧
       (Thing.num_votes comment ≤ comment_vote_update_threshold demo_globals ∨
        Thing.num_votes comment `mod` comment_vote_update_period demo_globals = 0)).
Proof.
  intros msg r.
  split; [by vm_compute|]. split; [by vm_compute|].
  apply (comment_score_update_rule (collab := demo_collab) demo_globals msg demo_world);
    by vm_compute.
Defined.

Lemma group_failure_aborts_batch_witness :
  let msgs := ["t3_a"; "t3_b"]%string in
  let group_trace :=
    [EvTimerStart "link_vote_processor.author_queries";
     EvAddQueries ((λ sort, get_submitted 1 sort "all") <$> SORTS) ["t3_a"%string];
     EvTimerStop "link_vote_processor.author_queries"] in
  Things_by_fullname (batch_names msgs) busy_world
    = (Normal [link_a; link_b], busy_world, []) ∧
  Account_byIDs (group_by_key Thing.author_id [link_a; link_b]).*1 busy_world
    = (Normal {[ 1 := alice; 2 := bob ]}, busy_world, []) ∧
  group_by_key Thing.author_id [link_a; link_b]
    = [] ++ (1, [link_a]) :: [(2, [link_b])] ∧
  author_group {[ 1 := alice; 2 := bob ]} (1, [link_a]) busy_world
    = (Raise TimeoutExpired, busy_world, group_trace) ∧
  author_process_message msgs busy_world
    = (Raise TimeoutExpired, busy_world,
       [EvByFullname (batch_names msgs); EvPrint "Processing"] ++ [] ++ group_trace).
Proof.
  intros msgs group_trace.
  assert (Things_by_fullname (batch_names msgs) busy_world
            = (Normal [link_a; link_b], busy_world, [])) as Hlinks by by vm_compute.
  assert (Account_byIDs (group_by_key Thing.author_id [link_a; link_b]).*1 busy_world
            = (Normal {[ 1 := alice; 2 := bob ]}, busy_world, [])) as Hauthors
    by by vm_compute.
  assert (author_group {[ 1 := alice; 2 := bob ]} (1, [link_a]) busy_world
            = (Raise TimeoutExpired, busy_world, group_trace)) as Hgroup
    by by vm_compute.
  split; [exact Hlinks|]. split; [exact Hauthors|]. split; [reflexivity|].
  split; [exact Hgroup|].
  apply (proj1 (group_failure_aborts_batch (collab := demo_collab) msgs busy_world busy_world
                  busy_world [link_a; link_b] TimeoutExpired [] group_trace Hlinks)
           {[ 1 := alice; 2 := bob ]} [] (1, [link_a]) [(2, [link_b])]).
  - exact Hauthors.
  - reflexivity.
  - reflexivity.
  - exact Hgroup.
Defined.


(** * Further properties of the module *)

Section More.
Context {collab : Collab} (g : Globals).

(** ** Deliveries that are not committed *)

(** X1: a delivery that does not reach [vote.commit()] leaves the whole state as
    it was and fans nothing out, whatever way [process_message] ended. *)
Theorem uncommitted_delivery_changes_nothing (kind : TargetKind)
    (msg : VoteData.t) (w : World) :
  let r := vote_process_message g kind msg w in
  committed r.2 = false →
  r.1.2 = w ∧ fanned_out r.2 = false.
Proof.
  destruct kind; simpl.
  - pose proof (link_process_message_result g msg w) as Hr. simpl in Hr.
    destruct (link_process_message g msg w) as [[o w'] t]; simpl in *.
    inversion Hr; subst; done.
  - pose proof (comment_process_message_result g msg w) as Hr. simpl in Hr.
    destruct (comment_process_message g msg w) as [[o w'] t]; simpl in *.
    inversion Hr; subst; done.
Qed.

(** The exceptions that building the [Vote] can raise. *)
Lemma build_error_kinds (thing : Thing.t) (msg : VoteData.t) (e : Exn) :
  build_error thing msg = Some e →
  match e with
  | KeyError _ | TypeError | ValueError | OverflowError => True
  | _ => False
  end.
Proof.
  unfold build_error, args_error, timestamp_to_datetime. intros Herr.
  repeat case_match; by simplify_eq.
Qed.

Lemma build_error_args (thing : Thing.t) (msg : VoteData.t) (e : Exn) :
  args_error msg = Some e → build_error thing msg = Some e.
Proof. unfold build_error. by intros ->. Qed.

Lemma build_error_type (thing : Thing.t) (msg : VoteData.t) :
  args_error msg = Some TypeError ∨
  (args_error msg = None ∧ is_votable (Thing.cls thing) = false) →
  build_error thing msg = Some TypeError.
Proof. unfold build_error. by intros [->|[-> ->]]. Qed.

(** The run of a delivery whose actor and target resolve, with the lock
    free, when building the [Vote] raises [e]. *)
Lemma build_error_run (kind : TargetKind) (msg : VoteData.t) (w : World)
    (user : Account.t) (thing : Thing.t) (e : Exn) :
  validate_vote_data msg ≠ Some false →
  resolve msg w = Some (user, thing) →
  (kind = KLink → ("voting"%string, vote_lock_key user thing) ∉ held_locks w) →
  build_error thing msg = Some e →
  vote_process_message g kind msg w =
    (if decide (e = TypeError) then Normal () else Raise e, w,
     match kind with
     | KLink =>
         [EvTimerStart "link_vote_processor";
          EvLockAcquire "voting" (vote_lock_key user thing) 5;
          EvPrint "Processing vote"]
         ++ (if decide (e = TypeError) then [EvLogException "Invalid type"] else [])
         ++ [EvLockRelease "voting" (vote_lock_key user thing)]
     | KComment =>
         [EvTimerStart "comment_vote_processor"; EvPrint "Processing vote"]
         ++ (if decide (e = TypeError) then [EvLogException "Invalid type"] else [])
     end).
Proof.
  intros Hv Hres Hlock Herr.
  destruct kind; simpl.
  - pose proof (link_process_message_result g msg w) as Hr. simpl in Hr.
    destruct (link_process_message g msg w) as [[o w'] t]; simpl in *.
    inversion Hr as [Hv'|e' Hv' Hres'|user' link' Hv' Hres' Hlock'
                    |user' link' e' Hv' Hres' Hlock' Herr' Hne'
                    |user' link' Hv' Hres' Hlock' Herr'
                    |user' link' vote Hv' Hres' Hlock' Hnew liked fanned]; subst;
      try congruence.
    + rewrite Hres in Hres'. simplify_eq. by destruct (Hlock eq_refl).
    + rewrite Hres in Hres'. simplify_eq. by destruct (decide _).
    + rewrite Hres in Hres'. simplify_eq. by destruct (decide _).
    + rewrite Hres in Hres'. simplify_eq. by destruct (new_vote_no_error _ _ _ _ _ _ Hnew Herr).
  - pose proof (comment_process_message_result g msg w) as Hr. simpl in Hr.
    destruct (comment_process_message g msg w) as [[o w'] t]; simpl in *.
    inversion Hr as [Hv'|e' Hv' Hres'|user' comment' e' Hv' Hres' Herr' Hne'
                    |user' comment' Hv' Hres' Herr'
                    |user' comment' vote Hv' Hres' Hnew fanned]; subst;
      try congruence.
    + rewrite Hres in Hres'. simplify_eq. by destruct (decide _).
    + rewrite Hres in Hres'. simplify_eq. by destruct (decide _).
    + rewrite Hres in Hres'. simplify_eq. by destruct (new_vote_no_error _ _ _ _ _ _ Hnew Herr).
Qed.

(** X2: a payload for which building the [Vote] raises [TypeError] is dropped:
    its [date] is not a number, or every argument evaluates (the keys are
    there and the date converts) and the constructor rejects the class of
    the thing.  [process_message] logs the exception and returns normally
    with the state unchanged; the link consumer has released its lock, and
    the timer it started is neither stopped nor flushed. *)
Theorem invalid_type_is_dropped (kind : TargetKind) (msg : VoteData.t)
    (w : World) (user : Account.t) (thing : Thing.t) :
  validate_vote_data msg ≠ Some false →
  resolve msg w = Some (user, thing) →
  (args_error msg = Some TypeError ∨
   (args_error msg = None ∧ is_votable (Thing.cls thing) = false)) →
  (kind = KLink → ("voting"%string, vote_lock_key user thing) ∉ held_locks w) →
  vote_process_message g kind msg w =
    (Normal (), w,
     match kind with
     | KLink =>
         [EvTimerStart "link_vote_processor";
          EvLockAcquire "voting" (vote_lock_key user thing) 5;
          EvPrint "Processing vote";
          EvLogException "Invalid type";
          EvLockRelease "voting" (vote_lock_key user thing)]
     | KComment =>
         [EvTimerStart "comment_vote_processor"; EvPrint "Processing vote";
          EvLogException "Invalid type"]
     end).
Proof.
  intros Hv Hres Herr Hlock.
  rewrite (build_error_run kind msg w user thing TypeError Hv Hres Hlock
             (build_error_type thing msg Herr)).
  by destruct kind.
Qed.

(** X3: a delivery only ever changes the record of the pair it names: the
    direction on record for any other (actor, target) stays what it was. *)
Theorem delivery_leaves_other_pairs (kind : TargetKind) (msg : VoteData.t)
    (w : World) (u : Z) (t : string) :
  (∀ user thing, resolve msg w = Some (user, thing) →
                 (Account._id user, Thing._fullname thing) ≠ (u, t)) →
  stored_direction (vote_process_message g kind msg w).1.2 u t = stored_direction w u t.
Proof.
  intros Hother.
  destruct (vote_step g kind msg w) as (_ & _ & _ & Hstep).
  unfold stored_direction.
  destruct Hstep as [(_ & _ & ->)|(_ & _ & user & thing & vote & Hres & _ & ->)];
    [done|].
  by rewrite lookup_insert_ne by by apply Hother.
Qed.

(** ** Payloads that do not resolve *)

Lemma wp_skip_corrupt (msg : VoteData.t) (m : M unit) Q w :
  validate_vote_data msg ≠ Some false →
  wp m Q w →
  wp (match validate_vote_data msg with
      | Some false => print "Ignoring invalid vote";; return_
      | _ => m
      end) Q w.
Proof. intros Hv Hm. by destruct (validate_vote_data msg) as [[]|]. Qed.

Lemma resolve_error_None (msg : VoteData.t) (w : World) :
  resolve_error msg w = None ↔ is_Some (resolve msg w).
Proof.
  unfold resolve_error, resolve.
  destruct (VoteData.user_id msg) as [id|]; simpl; [|by split; [|intros []]].
  destruct (accounts w !! id); simpl; [|by split; [|intros []]].
  destruct (VoteData.thing_fullname msg) as [name|]; simpl; [|by split; [|intros []]].
  destruct (things w !! name); simpl; [|by split; [|intros []]].
  split; [by eexists|done].
Qed.

Lemma unresolved_run (kind : TargetKind) (msg : VoteData.t) (w : World) (e : Exn) :
  validate_vote_data msg ≠ Some false →
  resolve_error msg w = Some e →
  vote_process_message g kind msg w = (Raise e, w, [EvTimerStart (vote_timer kind)]).
Proof.
  intros Hv Herr. unfold resolve_error in Herr.
  destruct kind; simpl; apply wp_eq.
  - unfold link_process_message. apply wp_call, wp_skip_corrupt; [done|].
    wp_steps. all: by simplify_eq/=.
  - unfold comment_process_message. apply wp_call, wp_skip_corrupt; [done|].
    wp_steps. all: by simplify_eq/=.
Qed.

(** X4: a payload that passes validation but whose actor or target does not
    resolve makes [process_message] raise, with only the timer started and
    the state unchanged: [KeyError] for a missing [user_id] or
    [thing_fullname] key, [NotFound] for an identifier that is not on file,
    the first of these in the order user id, account, fullname, thing. *)
Theorem unresolved_payload_raises (kind : TargetKind) (msg : VoteData.t)
    (w : World) (e : Exn) :
  validate_vote_data msg ≠ Some false →
  resolve_error msg w = Some e →
  vote_process_message g kind msg w = (Raise e, w, [EvTimerStart (vote_timer kind)]) ∧
  resolve msg w = None ∧
  (e = NotFound ∨ e = KeyError "user_id" ∨ e = KeyError "thing_fullname").
Proof.
  intros Hv Herr. split; [by apply unresolved_run|]. split.
  - destruct (resolve msg w) eqn:Hres; [|done].
    assert (resolve_error msg w = None) as Hnone
      by (apply resolve_error_None; by eexists).
    congruence.
  - unfold resolve_error in Herr. repeat case_match; simplify_eq; auto.
Qed.

(** X5: the link consumer raises [TimeoutExpired] exactly when the payload
    passes validation, actor and target resolve, and the lock of that very
    pair is held elsewhere; locks held under other keys never matter. *)
Theorem lock_timeout_iff_pair_locked (msg : VoteData.t) (w : World) :
  (link_process_message g msg w).1.1 = Raise TimeoutExpired ↔
    validate_vote_data msg ≠ Some false ∧
    ∃ user link,
      resolve msg w = Some (user, link) ∧
      ("voting"%string, vote_lock_key user link) ∈ held_locks w.
Proof.
  pose proof (link_process_message_result g msg w) as Hr. simpl in Hr.
  destruct (decide (validate_vote_data msg = Some false)) as [Hv|Hv].
  { destruct (link_process_message g msg w) as [[o w'] t]; simpl in *.
    inversion Hr; subst; try done. split; [done|]. by intros [? _]. }
  destruct (resolve_error msg w) as [e|] eqn:Herr.
  { pose proof (unresolved_run KLink msg w e Hv Herr) as Hrun. simpl in Hrun.
    rewrite Hrun. simpl.
    assert (resolve msg w = None) as Hnone.
    { destruct (resolve msg w) eqn:Hres; [|done].
      assert (resolve_error msg w = None) by (apply resolve_error_None; by eexists).
      congruence. }
    split.
    - intros [= ->]. unfold resolve_error in Herr. repeat case_match; simplify_eq.
    - intros (_ & user & link & Hres & _). congruence. }
  destruct (link_process_message g msg w) as [[o w'] t]; simpl in *.
  inversion Hr as [Hv'|e Hv' Hres|user link Hv' Hres Hlock
                  |user link e Hv' Hres Hlock Hbuild Hne
                  |user link Hv' Hres Hlock Hbuild
                  |user link vote Hv' Hres Hlock Hnew liked fanned]; subst; try done.
  - apply resolve_error_None in Herr as [? Hsome]. congruence.
  - split; [|done]. intros _. split; [done|]. by exists user, link.
  - split; [intros [= ->]; by apply build_error_kinds in Hbuild|].
    intros (_ & user' & link' & Hres' & Hheld).
    rewrite Hres in Hres'. by simplify_eq.
  - split; [done|]. intros (_ & user' & link' & Hres' & Hheld).
    rewrite Hres in Hres'. by simplify_eq.
  - split; [done|]. intros (_ & user' & link' & Hres' & Hheld).
    rewrite Hres in Hres'. by simplify_eq.
Qed.

(** X6: a payload whose actor and target resolve but whose arguments for the
    [Vote] raise something other than a [TypeError] makes [process_message]
    raise that exception: the [KeyError] of a missing [direction], [date] or
    [data] key, or the [ValueError] ([OverflowError]) of a date that
    [utcfromtimestamp] cannot represent, whichever comes first in the order
    direction, date, data.  The [except TypeError] clause does not catch it,
    so it leaves [process_message] (after the link consumer released its
    lock), with nothing committed and the state unchanged. *)
Theorem argument_error_raises (kind : TargetKind) (msg : VoteData.t)
    (w : World) (user : Account.t) (thing : Thing.t) (e : Exn) :
  validate_vote_data msg ≠ Some false →
  resolve msg w = Some (user, thing) →
  (kind = KLink → ("voting"%string, vote_lock_key user thing) ∉ held_locks w) →
  args_error msg = Some e →
  e ≠ TypeError →
  vote_process_message g kind msg w =
    (Raise e, w,
     match kind with
     | KLink =>
         [EvTimerStart "link_vote_processor";
          EvLockAcquire "voting" (vote_lock_key user thing) 5;
          EvPrint "Processing vote";
          EvLockRelease "voting" (vote_lock_key user thing)]
     | KComment =>
         [EvTimerStart "comment_vote_processor"; EvPrint "Processing vote"]
     end) ∧
  (e = KeyError "direction" ∨ e = KeyError "date" ∨ e = KeyError "data" ∨
   e = ValueError ∨ e = OverflowError).
Proof.
  intros Hv Hres Hlock Herr Hne. split.
  - rewrite (build_error_run kind msg w user thing e Hv Hres Hlock
               (build_error_args thing msg e Herr)).
    destruct (decide (e = TypeError)); [done|]. by destruct kind.
  - unfold args_error, timestamp_to_datetime in Herr.
    destruct (VoteData.direction msg); [|naive_solver].
    destruct (VoteData.date msg) as [[ts|]|]; [| |naive_solver].
    + destruct (float_overflow <=? Z.abs ts); [naive_solver|].
      destruct ((min_timestamp <=? ts) && (ts <=? max_timestamp)); [|naive_solver].
      destruct (VoteData.data msg); naive_solver.
    + naive_solver.
Qed.

(** ** The liked and disliked listings follow the votes *)

Lemma update_user_liked_listing (vote : Vote.t) (w : World) (q : Query) :
  let user := Account._id (Vote.user vote) in
  listing (update_user_liked vote w).1.2 q =
    if decide (q = get_liked user) then moved vote DirUp (listing w q)
    else if decide (q = get_disliked user) then moved vote DirDown (listing w q)
    else listing w q.
Proof.
  intros user.
  apply (wp_run (update_user_liked vote)
           (λ _ w' _, listing w' q =
              if decide (q = get_liked user) then moved vote DirUp (listing w q)
              else if decide (q = get_disliked user) then moved vote DirDown (listing w q)
              else listing w q)).
  subst user.
  unfold update_user_liked, Vote.is_upvote, Vote.is_downvote, moved.
  destruct vote as [u th d dt da ed [[]|]], d; simpl; wp_steps; simpl.
  all: rewrite ?listing_insert; simpl.
  all: repeat case_decide; simplify_eq; try done.
  all: set_solver.
Qed.

Lemma moved_elem_of (vote : Vote.t) (d : Direction) (s : gset string) (t : string) :
  d ≠ DirNone →
  (Thing._fullname (Vote.thing vote) ∈ s ↔ Vote.previous_vote vote = Some d) →
  t ∈ moved vote d s ↔
    if decide (t = Thing._fullname (Vote.thing vote))
    then Vote.direction vote = d else t ∈ s.
Proof.
  intros Hd Hinv. unfold moved.
  case_decide as Ht; repeat case_bool_decide; subst; set_solver.
Qed.

Lemma link_delivery_keeps_listings (msg : VoteData.t) (w : World) :
  liked_reflects_votes w →
  liked_reflects_votes (link_process_message g msg w).1.2.
Proof.
  intros Hinv.
  pose proof (link_process_message_result g msg w) as Hr. simpl in Hr.
  destruct (link_process_message g msg w) as [[o w'] tr]; simpl in *.
  inversion Hr as [Hv|e Hv Hres|user link Hv Hres Hlock|user link key Hv Hres Hlock Hargs
                  |user link Hv Hres Hlock Hargs Hvotable
                  |user link vote Hv Hres Hlock Hnew liked fanned]; subst; try done.
  destruct (new_vote_fields _ _ _ _ _ Hnew) as (Huser & Hthing & _ & Hprev).
  destruct (update_user_liked_run vote (commit_world vote w)) as (_ & _ & Hlv & _).
  destruct (link_fan_out_run g vote link liked.1.2) as (_ & _ & Hfv & Hfl & _).
  assert (∀ q, listing fanned.1.2 q =
               if decide (q = get_liked (Account._id user))
               then moved vote DirUp (listing w q)
               else if decide (q = get_disliked (Account._id user))
               then moved vote DirDown (listing w q)
               else listing w q) as Hlist.
  { intros q. unfold listing at 1. subst fanned. rewrite Hfl. fold (listing liked.1.2 q).
    subst liked. rewrite update_user_liked_listing. by rewrite Huser. }
  assert (∀ u t, stored_direction fanned.1.2 u t =
                 if decide ((Account._id user, Thing._fullname link) = (u, t))
                 then Some (Vote.direction vote) else stored_direction w u t) as Hstored.
  { intros u t. unfold stored_direction. subst fanned liked. rewrite Hfv, Hlv.
    unfold commit_world; simpl. rewrite Huser, Hthing.
    case_decide as Hk; [by rewrite Hk, lookup_insert_eq|by rewrite lookup_insert_ne]. }
  clearbody fanned. clear Hr Hlv Hfv Hfl.
  destruct (Hinv (Account._id user) (Thing._fullname link)) as [Hup Hdown].
  rewrite <- Hprev, <- Hthing in Hup, Hdown.
  intros u t. destruct (Hinv u t) as [Hup' Hdown'].
  rewrite !Hlist, Hstored. split.
  - destruct (decide (get_liked u = get_liked (Account._id user))) as [Heq|Hne].
    + injection Heq as ->. rewrite moved_elem_of by done. rewrite Hthing.
      repeat case_decide; simplify_eq; [split; congruence|done].
    + rewrite decide_False by done.
      case_decide; simplify_eq; done.
  - rewrite decide_False by done.
    destruct (decide (get_disliked u = get_disliked (Account._id user))) as [Heq|Hne].
    + injection Heq as ->. rewrite moved_elem_of by done. rewrite Hthing.
      repeat case_decide; simplify_eq; [split; congruence|done].
    + case_decide; simplify_eq; done.
Qed.

(** X7: the link consumer keeps the voter's listings in step with the vote
    store: if, before a sequence of deliveries, every actor's liked
    (disliked) listing holds exactly the targets whose recorded direction is
    up (down), the same is true after it, whatever the deliveries are and
    however each of them ends. *)
Theorem link_consumer_keeps_listings_in_step (msgs : list VoteData.t) (w : World) :
  liked_reflects_votes w →
  liked_reflects_votes (consume_items (link_process_message g) msgs w).
Proof.
  revert w. induction msgs as [|msg msgs IH]; intros w Hinv; [done|].
  simpl. apply IH. by apply link_delivery_keeps_listings.
Qed.

(** ** The fan-out queues *)

Lemma shard_suffix_inj (a b : Z) (prefix : string) :
  0 ≤ a < 10 → 0 ≤ b < 10 →
  prefix +:+ pretty a +:+ "_q" = prefix +:+ pretty b +:+ "_q" → a = b.
Proof.
  intros Ha Hb Heq. apply (inj (String.append prefix)) in Heq.
  assert (a = 0 ∨ a = 1 ∨ a = 2 ∨ a = 3 ∨ a = 4 ∨ a = 5 ∨ a = 6 ∨ a = 7 ∨ a = 8 ∨ a = 9)
    as Hcases_a by lia.
  assert (b = 0 ∨ b = 1 ∨ b = 2 ∨ b = 3 ∨ b = 4 ∨ b = 5 ∨ b = 6 ∨ b = 7 ∨ b = 8 ∨ b = 9)
    as Hcases_b by lia.
  destruct Hcases_a as [->|[->|[->|[->|[->|[->|[->|[->|[->| ->]]]]]]]]];
    destruct Hcases_b as [->|[->|[->|[->|[->|[->|[->|[->|[->| ->]]]]]]]]];
    first [reflexivity|by vm_compute in Heq].
Qed.

Lemma queue_names_distinct (l1 l2 : Thing.t) (url : string) :
  author_queue_name g l1 ≠ subreddit_queue_name g l2 ∧
  author_queue_name g l1 ≠ domain_queue_name g url ∧
  subreddit_queue_name g l1 ≠ domain_queue_name g url.
Proof.
  unfold author_queue_name, subreddit_queue_name, domain_queue_name.
  destruct (shard_author_query_queues g), (shard_subreddit_query_queues g),
    (shard_domain_query_queues g); simpl; repeat split; discriminate.
Qed.

(** X8: [add_to_author_query_q] and [add_to_subreddit_query_q] never raise and
    put the link's fullname at the end of exactly one queue.  With sharding
    switched on, two links share that queue exactly when their author ids
    (subreddit ids) agree modulo 10, negative ids included; with sharding
    off every link goes to the one unsharded queue. *)
Theorem owner_queues_shard_by_id_mod_10 (l1 l2 : Thing.t) (w : World) :
  let by_author := add_to_author_query_q g l1 w in
  let by_subreddit := add_to_subreddit_query_q g l1 w in
  (by_author.1.1 = Normal () ∧
   ∀ name, queue by_author.1.2 name =
     if decide (author_queue_name g l1 = name)
     then queue w name ++ [BName (Thing._fullname l1)] else queue w name) ∧
  (by_subreddit.1.1 = Normal () ∧
   ∀ name, queue by_subreddit.1.2 name =
     if decide (subreddit_queue_name g l1 = name)
     then queue w name ++ [BName (Thing._fullname l1)] else queue w name) ∧
  (author_queue_name g l1 = author_queue_name g l2 ↔
     shard_author_query_queues g = false ∨
     Thing.author_id l1 `mod` 10 = Thing.author_id l2 `mod` 10) ∧
  (subreddit_queue_name g l1 = subreddit_queue_name g l2 ↔
     shard_subreddit_query_queues g = false ∨
     Thing.sr_id l1 `mod` 10 = Thing.sr_id l2 `mod` 10).
Proof.
  intros by_author by_subreddit. subst by_author by_subreddit.
  split; [|split; [|split]].
  - split.
    + apply (wp_run (add_to_author_query_q g l1) (λ o _ _, o = Normal ())).
      unfold add_to_author_query_q. wp_steps. done.
    + intros name.
      apply (wp_run (add_to_author_query_q g l1)
               (λ _ w' _, queue w' name =
                  if decide (author_queue_name g l1 = name)
                  then queue w name ++ [BName (Thing._fullname l1)] else queue w name)).
      unfold add_to_author_query_q. wp_steps. simpl. rewrite queue_insert.
      by case_decide; subst.
  - split.
    + apply (wp_run (add_to_subreddit_query_q g l1) (λ o _ _, o = Normal ())).
      unfold add_to_subreddit_query_q. wp_steps. done.
    + intros name.
      apply (wp_run (add_to_subreddit_query_q g l1)
               (λ _ w' _, queue w' name =
                  if decide (subreddit_queue_name g l1 = name)
                  then queue w name ++ [BName (Thing._fullname l1)] else queue w name)).
      unfold add_to_subreddit_query_q. wp_steps. simpl. rewrite queue_insert.
      by case_decide; subst.
  - unfold author_queue_name. destruct (shard_author_query_queues g).
    + split.
      * intros Heq. right.
        apply (shard_suffix_inj _ _ "author_query_"); [| |done];
          apply Z.mod_pos_bound; lia.
      * intros [?|Heq]; [done|]. by rewrite Heq.
    + split; [by left|done].
  - unfold subreddit_queue_name. destruct (shard_subreddit_query_queues g).
    + split.
      * intros Heq. right.
        apply (shard_suffix_inj _ _ "subreddit_query_"); [| |done];
          apply Z.mod_pos_bound; lia.
      * intros [?|Heq]; [done|]. by rewrite Heq.
    + split; [by left|done].
Qed.

Lemma link_fan_out_queue (vote : Vote.t) (link : Thing.t) (w : World) (name : string) :
  queue (link_fan_out g vote link w).1.2 name =
    queue w name ++
    if eligible vote link &&
       bool_decide (name = author_queue_name g link ∨
                    name = subreddit_queue_name g link ∨
                    (domain_permutations (Thing.url link) ≠ [] ∧
                     name = domain_queue_name g (Thing.url link)))
    then [BName (Thing._fullname link)] else [].
Proof.
  destruct (queue_names_distinct link link (Thing.url link)) as (Has & Had & Hsd).
  apply (wp_run (link_fan_out g vote link)
           (λ _ w' _, queue w' name =
              queue w name ++
              if eligible vote link &&
                 bool_decide (name = author_queue_name g link ∨
                              name = subreddit_queue_name g link ∨
                              (domain_permutations (Thing.url link) ≠ [] ∧
                               name = domain_queue_name g (Thing.url link)))
              then [BName (Thing._fullname link)] else [])).
  unfold link_fan_out. fold (eligible vote link).
  unfold add_to_author_query_q, add_to_subreddit_query_q, add_to_domain_query_q.
  destruct (eligible vote link); simpl; wp_steps; simpl; [| |by rewrite app_nil_r].
  all: rewrite ?queue_insert.
  all: repeat case_decide; subst; case_bool_decide as Hb; simpl;
    rewrite ?app_nil_r; try done; try congruence.
  all: try (exfalso; naive_solver).
  all: try (destruct Hb; naive_solver).
Qed.

(** X9: a committed link vote that is eligible for fan-out puts the link's
    fullname exactly once at the end of its author queue, of its subreddit
    queue and, when the link has a domain, of its domain queue (three
    different queues); every other queue is untouched, and a vote that is
    not eligible touches no queue at all. *)
Theorem link_vote_reaches_its_queues (msg : VoteData.t) (w : World) :
  let r := link_process_message g msg w in
  committed r.2 = true →
  ∃ user link vote,
    resolve msg w = Some (user, link) ∧
    new_vote user link msg w = Some vote ∧
    (∀ name : string,
       queue r.1.2 name =
         queue w name ++
         if eligible vote link &&
            bool_decide (name = author_queue_name g link ∨
                         name = subreddit_queue_name g link ∨
                         (domain_permutations (Thing.url link) ≠ [] ∧
                          name = domain_queue_name g (Thing.url link)))
         then [BName (Thing._fullname link)] else []) ∧
    author_queue_name g link ≠ subreddit_queue_name g link ∧
    author_queue_name g link ≠ domain_queue_name g (Thing.url link) ∧
    subreddit_queue_name g link ≠ domain_queue_name g (Thing.url link).
Proof.
  intros r Hcommitted. subst r.
  pose proof (link_process_message_result g msg w) as Hr. simpl in Hr.
  destruct (link_process_message g msg w) as [[o w'] tr]; simpl in *.
  inversion Hr as [Hv|e Hv Hres|user link Hv Hres Hlock|user link key Hv Hres Hlock Hargs
                  |user link Hv Hres Hlock Hargs Hvotable
                  |user link vote Hv Hres Hlock Hnew liked fanned]; subst; try done.
  exists user, link, vote. split; [done|]. split; [done|].
  split; [|apply queue_names_distinct].
  intros name. subst fanned. rewrite link_fan_out_queue.
  destruct (update_user_liked_run vote (commit_world vote w)) as (_ & _ & _ & Hq & _).
  unfold queue. subst liked. by rewrite Hq.
Qed.

(** ** Casting a vote *)

Lemma update_vote_lookups_run (user : Account.t) (thing : Thing.t)
    (direction : Direction) (w : World) :
  cache_down w = false →
  update_vote_lookups g user thing direction w =
    (Normal (),
     with_last_modified
       (λ s, {[(Account._fullname user, last_modified_name (Thing.cls thing))]} ∪ s)
       (with_gencache
          <[prequeued_vote_key user thing :=
              (serialize_direction direction,
               int_total_seconds (vote_queue_grace_period g) + 1)]> w),
     [EvCacheSet (prequeued_vote_key user thing) (serialize_direction direction)
        (int_total_seconds (vote_queue_grace_period g) + 1);
      EvTouch (Account._fullname user) (last_modified_name (Thing.cls thing))]).
Proof.
  intros Hup. apply wp_eq. unfold update_vote_lookups.
  wp_steps; [congruence|]. done.
Qed.

(** X10: a later intent on the same (actor, target) overwrites the earlier one:
    after two calls of [update_vote_lookups] the cache holds the direction
    of the second under the pair's key, with the same time-to-live; no
    other cache key is written, and votes, queues and listings are not
    touched. *)
Theorem later_intent_overwrites (user : Account.t) (thing : Thing.t)
    (d1 d2 : Direction) (w : World) :
  cache_down w = false →
  let w1 := (update_vote_lookups g user thing d1 w).1.2 in
  let w2 := (update_vote_lookups g user thing d2 w1).1.2 in
  let key := prequeued_vote_key user thing in
  gencache w2 !! key
    = Some (serialize_direction d2, int_total_seconds (vote_queue_grace_period g) + 1) ∧
  (∀ key', key' ≠ key → gencache w2 !! key' = gencache w !! key') ∧
  votes w2 = votes w ∧ queues w2 = queues w ∧ listings w2 = listings w.
Proof.
  intros Hup w1 w2 key. subst w2 w1.
  rewrite (update_vote_lookups_run user thing d1 w Hup). simpl.
  rewrite update_vote_lookups_run by done. simpl.
  split; [apply lookup_insert_eq|]. split; [|done].
  intros key' Hne. by rewrite !lookup_insert_ne.
Qed.

Lemma cast_vote_run (request : Request) (user : Account.t) (thing : Thing.t)
    (direction : Direction) (data : Data) (w : World) :
  cache_down w = false →
  let r := cast_vote g request user thing direction data w in
  r.1.1 = Normal () ∧ accounts r.1.2 = accounts w ∧ things r.1.2 = things w ∧
  held_locks r.1.2 = held_locks w ∧ votes r.1.2 = votes w ∧
  listings r.1.2 = listings w ∧
  ∀ name, queue r.1.2 name =
    if decide (Thing.vote_queue_name thing = name)
    then queue w name ++ [BVote (cast_payload g request user thing direction data)]
    else queue w name.
Proof.
  intros Hup.
  apply (wp_run (cast_vote g request user thing direction data)
           (λ o w' _, o = Normal () ∧ accounts w' = accounts w ∧ things w' = things w ∧
              held_locks w' = held_locks w ∧ votes w' = votes w ∧
              listings w' = listings w ∧
              ∀ name, queue w' name =
                if decide (Thing.vote_queue_name thing = name)
                then queue w name ++
                     [BVote (cast_payload g request user thing direction data)]
                else queue w name)).
  unfold cast_vote. apply wp_call, wp_bind.
  eapply wp_value; [by apply update_vote_lookups_run|].
  wp_steps. simpl. repeat split; try done.
  intros name. rewrite queue_insert. by case_decide; subst.
Qed.

(** A timestamp between [datetime.min] and [datetime.max] converts. *)
Lemma timestamp_in_range (z : Z) :
  min_timestamp ≤ z ≤ max_timestamp → timestamp_to_datetime (DateInt z) = inr z.
Proof.
  intros Hz. unfold timestamp_to_datetime.
  assert (253402300800 < float_overflow) as Hbig by by vm_compute.
  unfold min_timestamp, max_timestamp in *.
  destruct (Z.leb_spec float_overflow (Z.abs z)); [lia|].
  destruct (Z.leb_spec (-62135596800) z), (Z.leb_spec z 253402300799);
    simpl; try done; lia.
Qed.

(** X11: a vote that is cast is the vote that gets recorded: the payload
    [cast_vote] puts last on the thing's vote queue carries every key the
    consumer reads, and when it is delivered (the time of the request being
    a time [datetime] can represent, the actor and the target being on file
    under their own identifiers, the target open to votes, the payload not
    flagged by the validation hook and, for a link, the pair's lock free)
    the consumer commits it and the direction on record for the pair is the
    direction that was cast. *)
Theorem cast_vote_is_recorded (kind : TargetKind) (request : Request)
    (user : Account.t) (thing : Thing.t) (direction : Direction) (data : Data)
    (w : World) :
  let msg := cast_payload g request user thing direction data in
  let w1 := (cast_vote g request user thing direction data w).1.2 in
  let r := vote_process_message g kind msg w1 in
  cache_down w = false →
  min_timestamp ≤ now request ≤ max_timestamp →
  accounts w !! Account._id user = Some user →
  things w !! Thing._fullname thing = Some thing →
  is_votable (Thing.cls thing) = true →
  validate_vote_data msg ≠ Some false →
  (kind = KLink → ("voting"%string, vote_lock_key user thing) ∉ held_locks w) →
  last (queue w1 (Thing.vote_queue_name thing)) = Some (BVote msg) ∧
  committed r.2 = true ∧
  stored_direction r.1.2 (Account._id user) (Thing._fullname thing) = Some direction.
Proof.
  intros msg w1 r Hup Hnow Hacc Hthing Hvotable Hv Hlock.
  destruct (cast_vote_run request user thing direction data w Hup)
    as (_ & Ha & Ht & Hl & _ & _ & Hq).
  fold w1 in Ha, Ht, Hl, Hq.
  split.
  { rewrite Hq, decide_True by done. apply last_snoc. }
  assert (resolve msg w1 = Some (user, thing)) as Hres.
  { unfold resolve, msg, cast_payload. simpl. rewrite Ha, Ht, Hacc. simpl.
    by rewrite Hthing. }
  assert (will_commit kind msg w1) as Hwill.
  { split; [done|]. exists user, thing. split; [done|]. split.
    - unfold new_vote, vote_args, msg, cast_payload. cbn [VoteData.direction
        VoteData.date VoteData.data mbind option_bind].
      rewrite (timestamp_in_range _ Hnow). simpl. rewrite Hvotable.
      by eexists.
    - rewrite Hl. done. }
  destruct (vote_step g kind msg w1) as (_ & _ & _ & Hstep). fold r in Hstep.
  destruct Hstep as [(_ & Hno & _)|(Hc & _ & user' & thing' & vote & Hres' & Hnew & Hvotes)];
    [done|].
  split; [done|].
  rewrite Hres in Hres'. simplify_eq.
  unfold stored_direction. rewrite Hvotes, lookup_insert_eq. simpl.
  destruct (new_vote_fields _ _ _ _ _ Hnew) as (_ & _ & Hd & _).
  unfold msg, cast_payload in Hd. simpl in Hd. congruence.
Qed.

(** ** Grouping a batch *)

Lemma dict_append_intro {K V} `{EqDecision K} (k : K) (v : V) (d : list (K * list V)) :
  (∃ vs, (k, vs) ∈ dict_append k v d ∧ v ∈ vs) ∧
  (∀ k' vs x, (k', vs) ∈ d → x ∈ vs →
     ∃ vs', (k', vs') ∈ dict_append k v d ∧ x ∈ vs').
Proof.
  induction d as [|[k0 vs0] d [IHa IHb]]; simpl.
  { split; [|by intros ? ? ? ?%elem_of_nil].
    exists [v]. split; [by left|by left]. }
  destruct (decide (k = k0)) as [->|Hne].
  - split.
    + exists (vs0 ++ [v]). split; [by left|]. apply elem_of_app. right. by left.
    + intros k' vs x [Heq|Hin]%elem_of_cons Hx.
      * simplify_eq. exists (vs0 ++ [v]). split; [by left|].
        apply elem_of_app. by left.
      * exists vs. split; [by right|done].
  - split.
    + destruct IHa as (vs & Hin & Hv). exists vs. split; [by right|done].
    + intros k' vs x [Heq|Hin]%elem_of_cons Hx.
      * simplify_eq. exists vs0. split; [by left|done].
      * destruct (IHb k' vs x Hin Hx) as (vs' & Hin' & Hx').
        exists vs'. split; [by right|done].
Qed.

(** Appending [v] under [k] adds the pair [(k, v)] to what the groups hold
    and nothing else. *)
Lemma dict_append_holds {K V} `{EqDecision K} (k0 : K) (v : V)
    (d : list (K * list V)) (R : K → V → Prop) :
  NoDup d.*1 →
  (∀ k l, (∃ ls, (k, ls) ∈ d ∧ l ∈ ls) ↔ R k l) →
  ∀ k l, (∃ ls, (k, ls) ∈ dict_append k0 v d ∧ l ∈ ls) ↔ R k l ∨ (k = k0 ∧ l = v).
Proof.
  intros Hd HR k l. destruct (dict_append_intro k0 v d) as [Hnew Hold]. split.
  - intros (ls & Hin & Hl).
    destruct (dict_append_elem _ _ _ _ _ Hd Hin)
      as [[Hk Hi]|[[-> (vs1 & Hi & ->)]|(-> & Hnin & ->)]].
    + left. apply HR. by exists ls.
    + apply elem_of_app in Hl as [Hl|Hl%list_elem_of_singleton].
      * left. apply HR. by exists vs1.
      * by right.
    + apply list_elem_of_singleton in Hl. by right.
  - intros [(ls & Hin & Hl)%HR|[-> ->]]; [by eapply Hold|done].
Qed.

Lemma dict_append_nonempty {K V} `{EqDecision K} (k0 : K) (v : V)
    (d : list (K * list V)) :
  (∀ k ls, (k, ls) ∈ d → ls ≠ []) →
  ∀ k ls, (k, ls) ∈ dict_append k0 v d → ls ≠ [].
Proof.
  induction d as [|[k1 vs1] d IH]; simpl; intros Hd k ls Hin.
  { apply list_elem_of_singleton in Hin. by simplify_eq. }
  destruct (decide (k0 = k1)) as [->|Hne].
  - apply elem_of_cons in Hin as [Heq|Hin]; [simplify_eq|].
    + by destruct vs1.
    + apply (Hd k). by right.
  - apply elem_of_cons in Hin as [Heq|Hin]; [simplify_eq|].
    + apply (Hd k1). by left.
    + apply (IH (λ k' ls' Hin', Hd k' ls' (proj2 (elem_of_cons _ _ _) (or_intror Hin')))
               k ls Hin).
Qed.

Lemma group_by_key_spec (key : Thing.t → Z) (links : list Thing.t) :
  NoDup (group_by_key key links).*1 ∧
  (∀ k ls, (k, ls) ∈ group_by_key key links → ls ≠ []) ∧
  (∀ k l, (∃ ls, (k, ls) ∈ group_by_key key links ∧ l ∈ ls) ↔ l ∈ links ∧ key l = k).
Proof.
  unfold group_by_key.

  cut (∀ d done,
        NoDup d.*1 → (∀ k ls, (k, ls) ∈ d → ls ≠ []) →
        (∀ k l, (∃ ls, (k, ls) ∈ d ∧ l ∈ ls) ↔ l ∈ done ∧ key l = k) →
        let d' := foldl (λ d link, dict_append (key link) link d) d links in
        NoDup d'.*1 ∧ (∀ k ls, (k, ls) ∈ d' → ls ≠ []) ∧
        (∀ k l, (∃ ls, (k, ls) ∈ d' ∧ l ∈ ls) ↔ l ∈ done ++ links ∧ key l = k)).
  { intros Hcut. apply (Hcut [] []); [constructor|by intros ? ? ?%elem_of_nil|].
    intros k l. split; [by intros (? & ?%elem_of_nil & _)|by intros [?%elem_of_nil _]]. }
  induction links as [|x links IH]; intros d done Hd Hne Hinv; simpl.
  { split; [done|]. split; [done|]. intros k l. by rewrite app_nil_r. }
  replace (done ++ x :: links) with ((done ++ [x]) ++ links)
    by (by rewrite <- app_assoc).
  apply IH; [by apply dict_append_NoDup|by apply dict_append_nonempty|].
  intros k l. rewrite (dict_append_holds _ _ _ _ Hd Hinv).
  rewrite elem_of_app, list_elem_of_singleton. naive_solver.
Qed.

(** X12: [links_by_author_id] and [links_by_sr_id] partition the batch by key:
    the groups have distinct keys, none is empty, and a link sits in the
    group of a key exactly when it is in the batch and has that key. *)
Theorem group_by_key_partitions (key : Thing.t → Z) (links : list Thing.t) :
  NoDup (group_by_key key links).*1 ∧
  (∀ k ls, (k, ls) ∈ group_by_key key links → ls ≠ []) ∧
  (∀ k l, (∃ ls, (k, ls) ∈ group_by_key key links ∧ l ∈ ls) ↔ l ∈ links ∧ key l = k).
Proof. apply group_by_key_spec. Qed.


Lemma group_by_domain_spec (links : list Thing.t) :
  NoDup (group_by_domain links).*1 ∧
  (∀ k ls, (k, ls) ∈ group_by_domain links → ls ≠ []) ∧
  (∀ k l, (∃ ls, (k, ls) ∈ group_by_domain links ∧ l ∈ ls) ↔
          l ∈ links ∧ k ∈ domain_permutations (Thing.url l)) ∧
  (∀ l, domain_permutations (Thing.url l) = [] →
        ∀ k ls, (k, ls) ∈ group_by_domain links → l ∉ ls).
Proof.
  assert (∀ (x : Thing.t) (R : string → Thing.t → Prop) (perms seen : list string)
            (d : list (string * list Thing.t)),
    NoDup d.*1 → (∀ k ls, (k, ls) ∈ d → ls ≠ []) →
    (∀ k l, (∃ ls, (k, ls) ∈ d ∧ l ∈ ls) ↔ R k l ∨ (l = x ∧ k ∈ seen)) →
    let d' := foldl (λ d domain, dict_append domain x d) d perms in
    NoDup d'.*1 ∧ (∀ k ls, (k, ls) ∈ d' → ls ≠ []) ∧
    (∀ k l, (∃ ls, (k, ls) ∈ d' ∧ l ∈ ls) ↔ R k l ∨ (l = x ∧ k ∈ seen ++ perms)))
    as Hinner.
  { intros x R perms. induction perms as [|p perms IH]; intros seen d Hd Hne Hinv; simpl.
    { split; [done|]. split; [done|]. intros k l. by rewrite app_nil_r. }
    replace (seen ++ p :: perms) with ((seen ++ [p]) ++ perms)
      by (by rewrite <- app_assoc).
    apply IH; [by apply dict_append_NoDup|by apply dict_append_nonempty|].
    intros k l. rewrite (dict_append_holds _ _ _ _ Hd Hinv).
    rewrite elem_of_app, list_elem_of_singleton. naive_solver. }
  assert (NoDup (group_by_domain links).*1 ∧
          (∀ k ls, (k, ls) ∈ group_by_domain links → ls ≠ []) ∧
          (∀ k l, (∃ ls, (k, ls) ∈ group_by_domain links ∧ l ∈ ls) ↔
                  l ∈ links ∧ k ∈ domain_permutations (Thing.url l))) as Hmain.
  { unfold group_by_domain.
    cut (∀ d done,
          NoDup d.*1 → (∀ k ls, (k, ls) ∈ d → ls ≠ []) →
          (∀ k l, (∃ ls, (k, ls) ∈ d ∧ l ∈ ls) ↔
                  l ∈ done ∧ k ∈ domain_permutations (Thing.url l)) →
          let d' := foldl (λ d link,
                       foldl (λ d domain, dict_append domain link d) d
                         (domain_permutations (Thing.url link))) d links in
          NoDup d'.*1 ∧ (∀ k ls, (k, ls) ∈ d' → ls ≠ []) ∧
          (∀ k l, (∃ ls, (k, ls) ∈ d' ∧ l ∈ ls) ↔
                  l ∈ done ++ links ∧ k ∈ domain_permutations (Thing.url l))).
    { intros Hcut. apply (Hcut [] []); [constructor|by intros ? ? ?%elem_of_nil|].
      intros k l. split; [by intros (? & ?%elem_of_nil & _)|by intros [?%elem_of_nil _]]. }
    induction links as [|x links IH]; intros d done Hd Hne Hinv; simpl.
    { split; [done|]. split; [done|]. intros k l. by rewrite app_nil_r. }
    replace (done ++ x :: links) with ((done ++ [x]) ++ links)
      by (by rewrite <- app_assoc).
    destruct (Hinner x (λ k l, l ∈ done ∧ k ∈ domain_permutations (Thing.url l))
                (domain_permutations (Thing.url x)) [] d Hd Hne)
      as (Hd' & Hne' & Hinv').
    { intros k l. rewrite Hinv. split; [by left|].
      intros [?|[_ ?%elem_of_nil]]; done. }
    apply IH; [done|done|].
    intros k l. rewrite Hinv'. simpl.
    rewrite elem_of_app, list_elem_of_singleton. naive_solver. }
  destruct Hmain as (Hkeys & Hne & Hmem).
  split; [done|]. split; [done|]. split; [done|].
  intros l Hnone k ls Hin Hl.
  assert (l ∈ links ∧ k ∈ domain_permutations (Thing.url l)) as [_ Hk]
    by (apply Hmem; by exists ls).
  rewrite Hnone in Hk. by apply elem_of_nil in Hk.
Qed.

(** X13: [links_by_domain] files a link under every permutation of its domain
    and nowhere else: the groups have distinct keys, none is empty, and a
    link sits in the group of a domain exactly when it is in the batch and
    the domain is one of the permutations of its URL.  A link whose URL has
    no permutation is therefore in no group. *)
Theorem group_by_domain_files_by_permutation (links : list Thing.t) :
  NoDup (group_by_domain links).*1 ∧
  (∀ k ls, (k, ls) ∈ group_by_domain links → ls ≠ []) ∧
  (∀ k l, (∃ ls, (k, ls) ∈ group_by_domain links ∧ l ∈ ls) ↔
          l ∈ links ∧ k ∈ domain_permutations (Thing.url l)) ∧
  (∀ l, domain_permutations (Thing.url l) = [] →
        ∀ k ls, (k, ls) ∈ group_by_domain links → l ∉ ls).
Proof. apply group_by_domain_spec. Qed.

(** ** Batches of the query consumers, listing by listing *)

Lemma listings_grow_refl w : listings_grow w w.
Proof. split; [apply only_listings_changed_refl|done]. Qed.

Lemma listings_grow_trans w1 w2 w3 :
  listings_grow w1 w2 → listings_grow w2 w3 → listings_grow w1 w3.
Proof.
  intros [Hc1 Hs1] [Hc2 Hs2]. split; [by eapply only_listings_changed_trans|].
  intros q. specialize (Hs1 q). specialize (Hs2 q). set_solver.
Qed.

Lemma listings_grow_insert (w : World) (q : Query) (items : gset string) :
  listings_grow w (with_listings <[q := listing w q ∪ items]> w).
Proof.
  split; [by repeat split|]. intros q'. rewrite listing_insert.
  case_decide; subst; set_solver.
Qed.

Lemma for_each_add_query_grows (items : list string) (queries : list Query) (w : World) :
  wp (for_each queries (add_query items))
    (λ o w' t, listings_grow w w' ∧ t = [] ∧ o ≠ Return ∧
       (busy_queries w = ∅ →
        o = Normal () ∧ ∀ q n, q ∈ queries → n ∈ items → n ∈ listing w' q)) w.
Proof.
  revert w. induction queries as [|q queries IH]; intros w; simpl.
  { wp_steps. split; [apply listings_grow_refl|]. repeat split; try done.
    by intros ? ? ?%elem_of_nil. }
  apply wp_bind. unfold add_query at 1. wp_steps.
  - split; [apply listings_grow_refl|]. split; [done|]. split; [done|].
    intros Hbusy. exfalso.
    match goal with Hb : bool_decide _ = true |- _ =>
      apply bool_decide_eq_true in Hb; rewrite Hbusy in Hb; set_solver end.
  - eapply wp_mono; [apply IH|]. simpl.
    intros o w' tr (Hgrow & -> & Ho & Hfree).
    pose proof (listings_grow_insert w q (list_to_set items)) as Hstep.
    split; [by eapply listings_grow_trans|]. split; [done|]. split; [done|].
    intros Hbusy. destruct (Hfree Hbusy) as [-> Hin]. split; [done|].
    intros q' n [->|Hq']%elem_of_cons Hn; [|by apply Hin].
    apply (proj2 Hgrow). rewrite listing_insert, decide_True by done.
    apply elem_of_union. right. by apply elem_of_list_to_set.
Qed.

Lemma wp_add_queries_grows (queries : list Query) (insert_items : list Thing.t) Q w :
  (∀ o w', o ≠ Return → listings_grow w w' →
     (busy_queries w = ∅ →
      o = Normal () ∧
      ∀ q l, q ∈ queries → l ∈ insert_items → Thing._fullname l ∈ listing w' q) →
     Q o w' [EvAddQueries queries (Thing._fullname <$> insert_items)]) →
  wp (add_queries queries insert_items) Q w.
Proof.
  intros HQ. unfold add_queries. apply wp_bind, wp_emit.
  eapply wp_mono; [apply for_each_add_query_grows|]. simpl.
  intros o w' tr (Hgrow & -> & Ho & Hfree). apply HQ; try done.
  intros Hbusy. destruct (Hfree Hbusy) as [-> Hin]. split; [done|].
  intros q l Hq Hl. apply Hin; [done|]. apply list_elem_of_fmap. by exists l.
Qed.

Lemma wp_for_each_grows {A} (P : A → World → Prop) (xs : list A)
    (body : A → M unit) (w0 : World) :
  (∀ x w w', P x w → listings_grow w w' → P x w') →
  (∀ x w, x ∈ xs → listings_grow w0 w →
     wp (body x) (λ o w' _, o = Normal () ∧ listings_grow w w' ∧ P x w') w) →
  wp (for_each xs body)
    (λ o w' _, o = Normal () ∧ listings_grow w0 w' ∧ ∀ x, x ∈ xs → P x w') w0.
Proof.
  intros Hup.
  cut (∀ w, listings_grow w0 w →
         (∀ x w1, x ∈ xs → listings_grow w0 w1 →
            wp (body x) (λ o w' _, o = Normal () ∧ listings_grow w1 w' ∧ P x w') w1) →
         wp (for_each xs body)
           (λ o w' _, o = Normal () ∧ listings_grow w w' ∧ ∀ x, x ∈ xs → P x w') w).
  { intros Hcut Hbody. apply Hcut; [apply listings_grow_refl|done]. }
  induction xs as [|x xs IH]; intros w Hw Hbody; simpl.
  { wp_steps. split; [done|]. split; [apply listings_grow_refl|].
    by intros ? ?%elem_of_nil. }
  apply wp_bind. eapply wp_mono; [apply Hbody; [by left|done]|]. simpl.
  intros o w1 _ (-> & Hg1 & HP).
  eapply wp_mono; [apply IH|].
  - by eapply listings_grow_trans.
  - intros x' w2 Hx' Hw2. apply Hbody; [by right|done].
  - simpl. intros o w2 _ (-> & Hg2 & HPs). split; [done|].
    split; [by eapply listings_grow_trans|].
    intros x' [->|Hx']%elem_of_cons; [by eapply Hup|by apply HPs].
Qed.

Lemma wp_for_each_any_grows {A} (xs : list A) (body : A → M unit) (w0 : World) :
  (∀ x w, x ∈ xs → wp (body x) (λ _ w' _, listings_grow w w') w) →
  wp (for_each xs body) (λ _ w' _, listings_grow w0 w') w0.
Proof.
  revert w0. induction xs as [|x xs IH]; intros w0 Hbody; simpl.
  { wp_steps. apply listings_grow_refl. }
  apply wp_bind. eapply wp_mono; [apply Hbody; by left|]. simpl.
  intros o w1 _ Hg1. destruct o; try done.
  eapply wp_mono; [apply IH|].
  - intros x' w2 Hx'. apply Hbody. by right.
  - simpl. intros _ w2 _ Hg2. by eapply listings_grow_trans.
Qed.

Lemma Things_by_fullname_found (names : list string) (w : World) :
  (∀ n, n ∈ names → is_Some (things w !! n)) →
  ∃ links, Things_by_fullname names w = (Normal links, w, []) ∧
           Forall2 (λ n l, things w !! n = Some l) names links.
Proof.
  induction names as [|n names IH]; intros Hall; simpl.
  { by exists []. }
  destruct (Hall n) as [l Hl]; [by left|].
  destruct IH as (links & Hrun & Hlinks).
  { intros n' Hn'. apply Hall. by right. }
  exists (l :: links). split; [|by constructor].
  apply wp_eq. unfold Thing_by_fullname. wp_steps; simplify_eq.
  eapply wp_value; [exact Hrun|]. wp_steps. done.
Qed.

Lemma Things_by_fullname_missing (names : list string) (w : World) (n : string) :
  n ∈ names → things w !! n = None →
  Things_by_fullname names w = (Raise NotFound, w, []).
Proof.
  intros Hn Hnone. induction names as [|n' names IH]; [by apply elem_of_nil in Hn|].
  simpl. apply wp_eq. unfold Thing_by_fullname. wp_steps; [|done].
  apply elem_of_cons in Hn as [->|Hn]; [congruence|].
  eapply wp_value; [by apply IH|]. done.
Qed.

Lemma Account_byIDs_found (ids : list Z) (w : World) :
  (∀ id, id ∈ ids → is_Some (accounts w !! id)) →
  ∃ d, Account_byIDs ids w = (Normal d, w, []) ∧
       ∀ id, id ∈ ids → d !! id = accounts w !! id.
Proof.
  induction ids as [|id ids IH]; intros Hall; simpl.
  { exists ∅. split; [done|]. by intros ? ?%elem_of_nil. }
  destruct (Hall id) as [a Ha]; [by left|].
  destruct IH as (d & Hrun & Hd).
  { intros id' Hid'. apply Hall. by right. }
  exists (<[id := a]> d). split.
  - apply wp_eq. unfold Account_byID. wp_steps; simplify_eq.
    eapply wp_value; [exact Hrun|]. wp_steps. done.
  - intros id' Hid'. destruct (decide (id = id')) as [->|Hne].
    + by rewrite lookup_insert_eq.
    + rewrite lookup_insert_ne by done. apply Hd.
      apply elem_of_cons in Hid' as [?|?]; [congruence|done].
Qed.

Lemma Subreddit_byIDs_found (ids : list Z) (w : World) :
  (∀ id, id ∈ ids → is_Some (subreddits w !! id)) →
  ∃ d, Subreddit_byIDs ids w = (Normal d, w, []) ∧
       ∀ id, id ∈ ids → d !! id = subreddits w !! id.
Proof.
  induction ids as [|id ids IH]; intros Hall; simpl.
  { exists ∅. split; [done|]. by intros ? ?%elem_of_nil. }
  destruct (Hall id) as [a Ha]; [by left|].
  destruct IH as (d & Hrun & Hd).
  { intros id' Hid'. apply Hall. by right. }
  exists (<[id := a]> d). split.
  - apply wp_eq. wp_steps; simplify_eq.
    eapply wp_value; [exact Hrun|]. wp_steps. done.
  - intros id' Hid'. destruct (decide (id = id')) as [->|Hne].
    + by rewrite lookup_insert_eq.
    + rewrite lookup_insert_ne by done. apply Hd.
      apply elem_of_cons in Hid' as [?|?]; [congruence|done].
Qed.

Lemma author_group_grows (authors : gmap Z Account.t) (group : Z * list Thing.t) w :
  wp (author_group authors group) (λ _ w' _, listings_grow w w') w.
Proof.
  destruct group as [k ls]. unfold author_group.
  apply wp_with_timer, wp_bind. wp_steps; [|apply listings_grow_refl].
  by apply wp_add_queries_grows.
Qed.

Lemma subreddit_group_grows (srs : gmap Z Subreddit.t) (group : Z * list Thing.t) w :
  wp (subreddit_group srs group) (λ _ w' _, listings_grow w w') w.
Proof.
  destruct group as [k ls]. unfold subreddit_group.
  apply wp_with_timer, wp_bind. wp_steps; [|apply listings_grow_refl].
  by apply wp_add_queries_grows.
Qed.

Lemma domain_group_grows (group : string * list Thing.t) w :
  wp (domain_group group) (λ _ w' _, listings_grow w w') w.
Proof.
  destruct group as [k ls]. unfold domain_group.
  apply wp_with_timer. by apply wp_add_queries_grows.
Qed.

(** X14: whatever the batch and however [process_message] ends, a query consumer
    only ever adds to cached listings: no listing loses a member, and votes,
    queues, accounts, things and locks are left as they were. *)
Theorem query_consumers_only_add_to_listings (msgs : list string) (w : World) :
  listings_grow w (author_process_message msgs w).1.2 ∧
  listings_grow w (subreddit_process_message msgs w).1.2 ∧
  listings_grow w (domain_process_message msgs w).1.2.
Proof.
  split; [|split].
  - apply (wp_run (author_process_message msgs) (λ _ w' _, listings_grow w w')).
    unfold author_process_message, Link_by_fullnames.
    apply wp_call, wp_bind, wp_bind, wp_emit.
    eapply wp_mono; [apply Things_by_fullname_run|]. simpl.
    intros o w' tr (-> & -> & Ho & _).
    destruct o as [links| |e]; try done; try apply listings_grow_refl.
    wp_steps. eapply wp_mono; [apply Account_byIDs_run|]. simpl.
    intros o w' tr (-> & -> & Ho' & _).
    destruct o as [authors| |e]; try done; try apply listings_grow_refl.
    apply wp_for_each_any_grows. intros x w' _. apply author_group_grows.
  - apply (wp_run (subreddit_process_message msgs) (λ _ w' _, listings_grow w w')).
    unfold subreddit_process_message, Link_by_fullnames.
    apply wp_call, wp_bind, wp_bind, wp_emit.
    eapply wp_mono; [apply Things_by_fullname_run|]. simpl.
    intros o w' tr (-> & -> & Ho & _).
    destruct o as [links| |e]; try done; try apply listings_grow_refl.
    wp_steps. eapply wp_mono; [apply Subreddit_byIDs_run|]. simpl.
    intros o w' tr (-> & -> & Ho' & _).
    destruct o as [srs| |e]; try done; try apply listings_grow_refl.
    apply wp_for_each_any_grows. intros x w' _. apply subreddit_group_grows.
  - apply (wp_run (domain_process_message msgs) (λ _ w' _, listings_grow w w')).
    unfold domain_process_message, Link_by_fullnames.
    apply wp_call, wp_bind, wp_bind, wp_emit.
    eapply wp_mono; [apply Things_by_fullname_run|]. simpl.
    intros o w' tr (-> & -> & Ho & _).
    destruct o as [links| |e]; try done; try apply listings_grow_refl.
    wp_steps.
    apply wp_for_each_any_grows. intros x w' _. apply domain_group_grows.
Qed.

(** X15: a batch that names a fullname which is not on file makes every query
    consumer raise [NotFound] right after the lookup: no listing is touched
    and no [add_queries] call is made, also for the links of the batch that
    are on file. *)
Theorem batch_with_unknown_link_raises (msgs : list string) (w : World) (n : string) :
  n ∈ msgs → things w !! n = None →
  let failed := (Raise NotFound, w, [EvByFullname (batch_names msgs)]) in
  author_process_message msgs w = failed ∧
  subreddit_process_message msgs w = failed ∧
  domain_process_message msgs w = failed.
Proof.
  intros Hn Hnone failed.
  assert (Things_by_fullname (batch_names msgs) w = (Raise NotFound, w, [])) as Hrun.
  { apply (Things_by_fullname_missing _ _ n); [|done].
    unfold batch_names. by rewrite elem_of_elements, elem_of_list_to_set. }
  split; [|split]; apply wp_eq.
  - unfold author_process_message, Link_by_fullnames. fold (batch_names msgs).
    apply wp_call, wp_bind, wp_bind, wp_emit. by eapply wp_value.
  - unfold subreddit_process_message, Link_by_fullnames. fold (batch_names msgs).
    apply wp_call, wp_bind, wp_bind, wp_emit. by eapply wp_value.
  - unfold domain_process_message, Link_by_fullnames. fold (batch_names msgs).
    apply wp_call, wp_bind, wp_bind, wp_emit. by eapply wp_value.
Qed.

Lemma resolved_elem (names : list string) (links : list Thing.t) (w : World) :
  Forall2 (λ n l, things w !! n = Some l) names links →
  (∀ n, n ∈ names → ∃ l, l ∈ links ∧ things w !! n = Some l) ∧
  (∀ l, l ∈ links → ∃ n, n ∈ names ∧ things w !! n = Some l).
Proof.
  induction 1 as [|n l names links Hl _ [IH1 IH2]].
  { split; by intros ? ?%elem_of_nil. }
  split.
  - intros n' [->|Hn']%elem_of_cons.
    + exists l. split; [by left|done].
    + destruct (IH1 n' Hn') as (l' & Hin & Hl'). exists l'. split; [by right|done].
  - intros l' [->|Hl']%elem_of_cons.
    + exists n. split; [by left|done].
    + destruct (IH2 l' Hl') as (n' & Hin & Hn'). exists n'. split; [by right|done].
Qed.

Lemma sorted_query_elem (mk : string → Query) (sort : string) :
  sort ∈ SORTS → mk sort ∈ mk <$> SORTS.
Proof. intros Hs. apply list_elem_of_fmap. by exists sort. Qed.

(** X16: when every link of the batch and its author are on file and no listing
    lock is held elsewhere, the author consumer returns normally and every
    link of the batch is in its author's submitted listing for each of the
    three sorts. *)
Theorem author_batch_lists_every_link (msgs : list string) (w : World) :
  let r := author_process_message msgs w in
  db_consistent w →
  authors_on_file w →
  (∀ n, n ∈ msgs → is_Some (things w !! n)) →
  busy_queries w = ∅ →
  r.1.1 = Normal () ∧
  ∀ n link sort,
    n ∈ msgs → things w !! n = Some link → sort ∈ SORTS →
    n ∈ listing r.1.2 (get_submitted (Thing.author_id link) sort "all").
Proof.
  intros r Hdb Hauthors Hfile Hbusy. subst r.
  destruct (Things_by_fullname_found (batch_names msgs) w) as (links & Hrun & Hlinks).
  { intros n Hn. apply Hfile. unfold batch_names in Hn.
    by rewrite elem_of_elements, elem_of_list_to_set in Hn. }
  destruct (resolved_elem _ _ _ Hlinks) as [Hnames Hfound].
  destruct (group_by_key_spec Thing.author_id links) as (_ & Hne & Hgroups).
  set (groups := group_by_key Thing.author_id links) in *.
  assert (∀ k ls, (k, ls) ∈ groups →
            ∃ author, accounts w !! k = Some author ∧ Account._id author = k)
    as Howner.
  { intros k ls Hin. destruct ls as [|l ls]; [by destruct (Hne k [] Hin)|].
    assert (l ∈ links ∧ Thing.author_id l = k) as [Hl <-].
    { apply Hgroups. exists (l :: ls). split; [done|by left]. }
    destruct (Hfound l Hl) as (n & _ & Hn).
    destruct (Hauthors n l Hn) as [author Hauthor].
    exists author. split; [done|]. by apply (proj1 Hdb _ _ Hauthor). }
  destruct (Account_byIDs_found groups.*1 w) as (authors & Hrun' & Hdict).
  { intros id (kls & -> & Hin)%list_elem_of_fmap. destruct kls as [k ls].
    destruct (Howner k ls Hin) as (author & Ha & _). by eexists. }
  apply (wp_run (author_process_message msgs)
           (λ o w' _, o = Normal () ∧
              ∀ n link sort,
                n ∈ msgs → things w !! n = Some link → sort ∈ SORTS →
                n ∈ listing w' (get_submitted (Thing.author_id link) sort "all"))).
  unfold author_process_message, Link_by_fullnames. fold (batch_names msgs).
  apply wp_call, wp_bind, wp_bind, wp_emit.
  eapply wp_value; [exact Hrun|]. wp_steps.
  fold groups. eapply wp_value; [exact Hrun'|]. lazy beta iota.
  eapply wp_mono;
    [apply (wp_for_each_grows
              (λ (group : Z * list Thing.t) w',
                 ∀ l sort, l ∈ group.2 → sort ∈ SORTS →
                   Thing._fullname l
                     ∈ listing w' (get_submitted group.1 sort "all")))|].
  - intros [k ls] w1 w2 HP [_ Hsub] l sort Hl Hs. apply Hsub. by apply HP.
  - intros [k ls] w1 Hin Hgrow. unfold author_group.
    destruct (Howner k ls Hin) as (author & Ha & Hid).
    apply wp_with_timer, wp_bind. unfold dict_getitem.
    rewrite (Hdict k) by (apply list_elem_of_fmap; by exists (k, ls)).
    rewrite Ha. wp_steps.
    apply wp_add_queries_grows. intros o w2 _ Hgrow2 Hfree.
    destruct Hfree as [-> Hin2].
    { destruct Hgrow as [(_ & _ & _ & _ & _ & _ & ->) _]. done. }
    split; [done|]. split; [done|]. simpl.
    intros l sort Hl Hs. apply Hin2; [|done]. rewrite Hid.
    by apply (sorted_query_elem (λ sort, get_submitted k sort "all")).
  - simpl. intros o w' _ (-> & _ & HP). split; [done|].
    intros n link sort Hn Hlink Hs.
    destruct (Hnames n) as (l & Hl & Hl').
    { unfold batch_names. by rewrite elem_of_elements, elem_of_list_to_set. }
    rewrite Hlink in Hl'. simplify_eq.
    destruct (proj2 (Hgroups (Thing.author_id l) l)) as (ls & Hin & Hmem); [done|].
    rewrite <- (proj2 Hdb _ _ Hlink).
    by apply (HP (Thing.author_id l, ls)).
Qed.

(** X17: when every link of the batch and its subreddit are on file and no
    listing lock is held elsewhere, the subreddit consumer returns normally
    and every link of the batch is in its subreddit's listing for each of
    the three sorts. *)
Theorem subreddit_batch_lists_every_link (msgs : list string) (w : World) :
  let r := subreddit_process_message msgs w in
  db_consistent w →
  subreddits_on_file w →
  (∀ n, n ∈ msgs → is_Some (things w !! n)) →
  busy_queries w = ∅ →
  r.1.1 = Normal () ∧
  ∀ n link sort,
    n ∈ msgs → things w !! n = Some link → sort ∈ SORTS →
    n ∈ listing r.1.2 (get_links (Thing.sr_id link) sort "all").
Proof.
  intros r Hdb Hsrs Hfile Hbusy. subst r.
  destruct (Things_by_fullname_found (batch_names msgs) w) as (links & Hrun & Hlinks).
  { intros n Hn. apply Hfile. unfold batch_names in Hn.
    by rewrite elem_of_elements, elem_of_list_to_set in Hn. }
  destruct (resolved_elem _ _ _ Hlinks) as [Hnames Hfound].
  destruct (group_by_key_spec Thing.sr_id links) as (_ & Hne & Hgroups).
  set (groups := group_by_key Thing.sr_id links) in *.
  assert (∀ k ls, (k, ls) ∈ groups →
            ∃ sr, subreddits w !! k = Some sr ∧ Subreddit._id sr = k)
    as Howner.
  { intros k ls Hin. destruct ls as [|l ls]; [by destruct (Hne k [] Hin)|].
    assert (l ∈ links ∧ Thing.sr_id l = k) as [Hl <-].
    { apply Hgroups. exists (l :: ls). split; [done|by left]. }
    destruct (Hfound l Hl) as (n & _ & Hn).
    pose proof (Hsrs n l Hn) as Hsr. simpl in Hsr.
    destruct (subreddits w !! Thing.sr_id l) as [sr|]; [|done].
    exists sr. split; [done|]. by simplify_eq/=. }
  destruct (Subreddit_byIDs_found groups.*1 w) as (srs & Hrun' & Hdict).
  { intros id (kls & -> & Hin)%list_elem_of_fmap. destruct kls as [k ls].
    destruct (Howner k ls Hin) as (sr & Ha & _). by eexists. }
  apply (wp_run (subreddit_process_message msgs)
           (λ o w' _, o = Normal () ∧
              ∀ n link sort,
                n ∈ msgs → things w !! n = Some link → sort ∈ SORTS →
                n ∈ listing w' (get_links (Thing.sr_id link) sort "all"))).
  unfold subreddit_process_message, Link_by_fullnames. fold (batch_names msgs).
  apply wp_call, wp_bind, wp_bind, wp_emit.
  eapply wp_value; [exact Hrun|]. wp_steps.
  fold groups. eapply wp_value; [exact Hrun'|]. lazy beta iota.
  eapply wp_mono;
    [apply (wp_for_each_grows
              (λ (group : Z * list Thing.t) w',
                 ∀ l sort, l ∈ group.2 → sort ∈ SORTS →
                   Thing._fullname l ∈ listing w' (get_links group.1 sort "all")))|].
  - intros [k ls] w1 w2 HP [_ Hsub] l sort Hl Hs. apply Hsub. by apply HP.
  - intros [k ls] w1 Hin Hgrow. unfold subreddit_group.
    destruct (Howner k ls Hin) as (sr & Ha & Hid).
    apply wp_with_timer, wp_bind. unfold dict_getitem.
    rewrite (Hdict k) by (apply list_elem_of_fmap; by exists (k, ls)).
    rewrite Ha. wp_steps.
    apply wp_add_queries_grows. intros o w2 _ Hgrow2 Hfree.
    destruct Hfree as [-> Hin2].
    { destruct Hgrow as [(_ & _ & _ & _ & _ & _ & ->) _]. done. }
    split; [done|]. split; [done|]. simpl.
    intros l sort Hl Hs. apply Hin2; [|done]. rewrite Hid.
    by apply (sorted_query_elem (λ sort, get_links k sort "all")).
  - simpl. intros o w' _ (-> & _ & HP). split; [done|].
    intros n link sort Hn Hlink Hs.
    destruct (Hnames n) as (l & Hl & Hl').
    { unfold batch_names. by rewrite elem_of_elements, elem_of_list_to_set. }
    rewrite Hlink in Hl'. simplify_eq.
    destruct (proj2 (Hgroups (Thing.sr_id l) l)) as (ls & Hin & Hmem); [done|].
    rewrite <- (proj2 Hdb _ _ Hlink).
    by apply (HP (Thing.sr_id l, ls)).
Qed.

(** X18: when every link of the batch is on file and no listing lock is held
    elsewhere, the domain consumer returns normally and every link of the
    batch is in the listing of each permutation of its domain, for each of
    the three sorts. *)
Theorem domain_batch_lists_every_permutation (msgs : list string) (w : World) :
  let r := domain_process_message msgs w in
  db_consistent w →
  (∀ n, n ∈ msgs → is_Some (things w !! n)) →
  busy_queries w = ∅ →
  r.1.1 = Normal () ∧
  ∀ n link domain sort,
    n ∈ msgs → things w !! n = Some link →
    domain ∈ domain_permutations (Thing.url link) → sort ∈ SORTS →
    n ∈ listing r.1.2 (get_domain_links domain sort "all").
Proof.
  intros r Hdb Hfile Hbusy. subst r.
  destruct (Things_by_fullname_found (batch_names msgs) w) as (links & Hrun & Hlinks).
  { intros n Hn. apply Hfile. unfold batch_names in Hn.
    by rewrite elem_of_elements, elem_of_list_to_set in Hn. }
  destruct (resolved_elem _ _ _ Hlinks) as [Hnames Hfound].
  destruct (group_by_domain_spec links) as (_ & _ & Hgroups & _).
  apply (wp_run (domain_process_message msgs)
           (λ o w' _, o = Normal () ∧
              ∀ n link domain sort,
                n ∈ msgs → things w !! n = Some link →
                domain ∈ domain_permutations (Thing.url link) → sort ∈ SORTS →
                n ∈ listing w' (get_domain_links domain sort "all"))).
  unfold domain_process_message, Link_by_fullnames. fold (batch_names msgs).
  apply wp_call, wp_bind, wp_bind, wp_emit.
  eapply wp_value; [exact Hrun|]. wp_steps.
  eapply wp_mono;
    [apply (wp_for_each_grows
              (λ (group : string * list Thing.t) w',
                 ∀ l sort, l ∈ group.2 → sort ∈ SORTS →
                   Thing._fullname l
                     ∈ listing w' (get_domain_links group.1 sort "all")))|].
  - intros [k ls] w1 w2 HP [_ Hsub] l sort Hl Hs. apply Hsub. by apply HP.
  - intros [k ls] w1 Hin Hgrow. unfold domain_group.
    apply wp_with_timer.
    apply wp_add_queries_grows. intros o w2 _ Hgrow2 Hfree.
    destruct Hfree as [-> Hin2].
    { destruct Hgrow as [(_ & _ & _ & _ & _ & _ & ->) _]. done. }
    split; [done|]. split; [done|]. simpl.
    intros l sort Hl Hs. apply Hin2; [|done].
    by apply (sorted_query_elem (λ sort, get_domain_links k sort "all")).
  - simpl. intros o w' _ (-> & _ & HP). split; [done|].
    intros n link domain sort Hn Hlink Hd Hs.
    destruct (Hnames n) as (l & Hl & Hl').
    { unfold batch_names. by rewrite elem_of_elements, elem_of_list_to_set. }
    rewrite Hlink in Hl'. simplify_eq.
    destruct (proj2 (Hgroups domain l)) as (ls & Hin & Hmem); [done|].
    rewrite <- (proj2 Hdb _ _ Hlink).
    by apply (HP (domain, ls)).
Qed.

(** ** The comment consumer after the commit *)

Lemma comment_fan_out_free timer (vote : Vote.t) (comment : Thing.t)
    (author : Account.t) (w : World) :
  accounts w !! Thing.author_id comment = Some author →
  busy_queries w = ∅ →
  let r := comment_fan_out g timer vote comment w in
  r.1.1 =
    (if eligible vote comment
        && negb (Thing.num_votes comment <=? comment_vote_update_threshold g)
        && (comment_vote_update_period g =? 0)
     then Raise ZeroDivisionError else Normal ()) ∧
  (eligible vote comment = true →
   ∀ sort, sort ∈ SORTS →
     Thing._fullname comment
       ∈ listing r.1.2 (get_comments (Account._id author) sort "all")) ∧
  (eligible vote comment = false → r.1.2 = w).
Proof.
  intros Hauthor Hbusy.
  apply (wp_run (comment_fan_out g timer vote comment)
           (λ o w' _,
              o = (if eligible vote comment
                      && negb (Thing.num_votes comment <=? comment_vote_update_threshold g)
                      && (comment_vote_update_period g =? 0)
                   then Raise ZeroDivisionError else Normal ()) ∧
              (eligible vote comment = true →
               ∀ sort, sort ∈ SORTS →
                 Thing._fullname comment
                   ∈ listing w' (get_comments (Account._id author) sort "all")) ∧
              (eligible vote comment = false → w' = w))).
  unfold comment_fan_out. fold (eligible vote comment).
  destruct (eligible vote comment); [|wp_steps; done].
  unfold Account_byID. apply wp_bind, wp_bind, wp_gets. rewrite Hauthor. wp_steps.
  apply wp_add_queries_grows. intros o w1 _ Hgrow Hfree.
  destruct (Hfree Hbusy) as [-> Hin].
  assert (∀ sort, sort ∈ SORTS →
            Thing._fullname comment
              ∈ listing w1 (get_comments (Account._id author) sort "all")) as Hlisted.
  { intros sort Hs. apply Hin; [|by left].
    by apply (sorted_query_elem (λ sort, get_comments (Account._id author) sort "all")). }
  unfold should_update_score, add_to_commentstree_q.
  wp_steps; simpl; repeat split; try done.
Qed.

(** X19: with the comment's author on file and no listing lock held elsewhere, a
    committed comment vote that is eligible puts the comment into the
    author's comment listing for each of the three sorts, and one that is
    not eligible changes nothing beyond the vote record. *)
Theorem comment_vote_updates_author_listings (msg : VoteData.t) (w : World) :
  let r := comment_process_message g msg w in
  committed r.2 = true →
  authors_on_file w →
  busy_queries w = ∅ →
  ∃ user comment vote author,
    resolve msg w = Some (user, comment) ∧
    new_vote user comment msg w = Some vote ∧
    accounts w !! Thing.author_id comment = Some author ∧
    (eligible vote comment = true →
     ∀ sort, sort ∈ SORTS →
       Thing._fullname comment
         ∈ listing r.1.2 (get_comments (Account._id author) sort "all")) ∧
    (eligible vote comment = false → r.1.2 = commit_world vote w).
Proof.
  intros r Hcommitted Hauthors Hbusy. subst r.
  pose proof (comment_process_message_result g msg w) as Hr. simpl in Hr.
  destruct (comment_process_message g msg w) as [[o w'] tr]; simpl in *.
  inversion Hr as [Hv|e Hv Hres|user comment key Hv Hres Hargs
                  |user comment Hv Hres Hargs Hvotable
                  |user comment vote Hv Hres Hnew fanned]; subst; try done.
  destruct (resolve_thing _ _ _ _ Hres) as (_ & name & _ & _ & _ & Hthing).
  destruct (Hauthors name comment Hthing) as [author Hauthor].
  exists user, comment, vote, author.
  split; [done|]. split; [done|]. split; [done|].
  destruct (comment_fan_out_free "comment_vote_processor" vote comment author
              (commit_world vote w) Hauthor Hbusy) as (_ & Hlisted & Hsame).
  by split.
Qed.

(** X20: with the comment's author on file and no listing lock held elsewhere, a
    committed comment vote makes [process_message] raise in one case only:
    [ZeroDivisionError], when the vote is eligible, the comment's vote count
    is above the threshold and the configured period is 0.  The exception
    comes after the commit, so the vote stays on record. *)
Theorem zero_update_period_raises_after_commit (msg : VoteData.t) (w : World) :
  let r := comment_process_message g msg w in
  committed r.2 = true →
  authors_on_file w →
  busy_queries w = ∅ →
  ∃ user comment vote,
    resolve msg w = Some (user, comment) ∧
    new_vote user comment msg w = Some vote ∧
    votes r.1.2 !! (Account._id user, Thing._fullname comment) = Some vote ∧
    r.1.1 =
      (if eligible vote comment
          && negb (Thing.num_votes comment <=? comment_vote_update_threshold g)
          && (comment_vote_update_period g =? 0)
       then Raise ZeroDivisionError else Normal ()).
Proof.
  intros r Hcommitted Hauthors Hbusy. subst r.
  pose proof (comment_process_message_result g msg w) as Hr. simpl in Hr.
  destruct (comment_process_message g msg w) as [[o w'] tr]; simpl in *.
  inversion Hr as [Hv|e Hv Hres|user comment key Hv Hres Hargs
                  |user comment Hv Hres Hargs Hvotable
                  |user comment vote Hv Hres Hnew fanned]; subst; try done.
  destruct (resolve_thing _ _ _ _ Hres) as (_ & name & _ & _ & _ & Hthing).
  destruct (Hauthors name comment Hthing) as [author Hauthor].
  exists user, comment, vote. split; [done|]. split; [done|].
  destruct (comment_fan_out_free "comment_vote_processor" vote comment author
              (commit_world vote w) Hauthor Hbusy) as (Ho & _).
  destruct (comment_fan_out_frame g "comment_vote_processor" vote comment
              (commit_world vote w)) as (Hfv & _).
  subst fanned. split.
  - rewrite Hfv. destruct (new_vote_fields _ _ _ _ _ Hnew) as (<- & <- & _).
    apply votes_commit_world.
  - rewrite Ho. by destruct (_ && _ && _).
Qed.

End More.

(** ** The further properties on the concrete deployment *)

Lemma demo_world_subreddits_on_file : subreddits_on_file demo_world.
Proof. refine (bool_decide_unpack _ _). by vm_compute. Defined.

Lemma demo_world_listings_in_step : liked_reflects_votes demo_world.
Proof. intros u t. unfold listing, stored_direction. simpl. split; split; set_solver. Defined.

Lemma demo_batch_on_file (n : string) :
  n ∈ ["t3_a"; "t3_b"]%string → is_Some (things demo_world !! n).
Proof.
  intros [->|[->|Hn%elem_of_nil]%elem_of_cons]%elem_of_cons; [by eexists|by eexists|done].
Defined.

Lemma uncommitted_delivery_changes_nothing_witness :
  let r :=
    vote_process_message (collab := demo_collab) demo_globals KLink
      (vote_msg 1 "t3_a" DirUp) locked_world in
  committed r.2 = false ∧ r.1.2 = locked_world ∧ fanned_out r.2 = false.
Proof.
  intros r. split; [by vm_compute|].
  apply (uncommitted_delivery_changes_nothing (collab := demo_collab)).
  by vm_compute.
Defined.

Lemma invalid_type_is_dropped_witness :
  validate_vote_data (Collab := demo_collab) null_date_msg ≠ Some false ∧
  resolve null_date_msg demo_world = Some (alice, link_a) ∧
  (args_error null_date_msg = Some TypeError ∨
   (args_error null_date_msg = None ∧ is_votable (Thing.cls link_a) = false)) ∧
  ("voting"%string, vote_lock_key alice link_a) ∉ held_locks demo_world ∧
  vote_process_message (collab := demo_collab) demo_globals KLink null_date_msg demo_world =
    (Normal (), demo_world,
     [EvTimerStart "link_vote_processor";
      EvLockAcquire "voting" (vote_lock_key alice link_a) 5;
      EvPrint "Processing vote";
      EvLogException "Invalid type";
      EvLockRelease "voting" (vote_lock_key alice link_a)]).
Proof.
  assert (("voting"%string, vote_lock_key alice link_a) ∉ held_locks demo_world)
    as Hfree by set_solver.
  assert (args_error null_date_msg = Some TypeError ∨
          (args_error null_date_msg = None ∧ is_votable (Thing.cls link_a) = false))
    as Herr by (left; reflexivity).
  split; [done|]. split; [by vm_compute|]. split; [exact Herr|].
  split; [exact Hfree|].
  apply (invalid_type_is_dropped (collab := demo_collab) demo_globals KLink null_date_msg
           demo_world alice link_a); first [done|by vm_compute].
Defined.

Lemma delivery_leaves_other_pairs_witness :
  let msg := vote_msg 1 "t3_a" DirUp in
  resolve msg demo_world = Some (alice, link_a) ∧
  stored_direction
    (vote_process_message (collab := demo_collab) demo_globals KLink msg demo_world).1.2
    2 "t3_b" = stored_direction demo_world 2 "t3_b".
Proof.
  intros msg.
  assert (resolve msg demo_world = Some (alice, link_a)) as Hres by by vm_compute.
  split; [exact Hres|].
  apply (delivery_leaves_other_pairs (collab := demo_collab)).
  intros user thing Hres'. rewrite Hres in Hres'. by simplify_eq.
Defined.

Lemma unresolved_payload_raises_witness :
  let msg := vote_msg 9 "t3_a" DirUp in
  validate_vote_data (Collab := demo_collab) msg ≠ Some false ∧
  resolve_error msg demo_world = Some NotFound ∧
  vote_process_message (collab := demo_collab) demo_globals KComment msg demo_world
    = (Raise NotFound, demo_world, [EvTimerStart (vote_timer KComment)]) ∧
  resolve msg demo_world = None ∧
  (NotFound = NotFound ∨ NotFound = KeyError "user_id" ∨
   NotFound = KeyError "thing_fullname").
Proof.
  intros msg. split; [done|]. split; [by vm_compute|].
  apply (unresolved_payload_raises (collab := demo_collab)); [done|by vm_compute].
Defined.

Lemma argument_error_raises_witness :
  validate_vote_data (Collab := demo_collab) late_msg ≠ Some false ∧
  resolve late_msg demo_world = Some (alice, link_a) ∧
  ("voting"%string, vote_lock_key alice link_a) ∉ held_locks demo_world ∧
  args_error late_msg = Some ValueError ∧
  ValueError ≠ TypeError ∧
  vote_process_message (collab := demo_collab) demo_globals KLink late_msg demo_world =
    (Raise ValueError, demo_world,
     [EvTimerStart "link_vote_processor";
      EvLockAcquire "voting" (vote_lock_key alice link_a) 5;
      EvPrint "Processing vote";
      EvLockRelease "voting" (vote_lock_key alice link_a)]) ∧
  (ValueError = KeyError "direction" ∨ ValueError = KeyError "date" ∨
   ValueError = KeyError "data" ∨ ValueError = ValueError ∨ ValueError = OverflowError).
Proof.
  assert (("voting"%string, vote_lock_key alice link_a) ∉ held_locks demo_world)
    as Hfree by set_solver.
  split; [done|]. split; [by vm_compute|]. split; [exact Hfree|].
  split; [by vm_compute|]. split; [done|].
  apply (argument_error_raises (collab := demo_collab) demo_globals KLink late_msg
           demo_world alice link_a); first [done|by vm_compute].
Defined.

Lemma link_consumer_keeps_listings_in_step_witness :
  liked_reflects_votes demo_world ∧
  liked_reflects_votes
    (consume_items (link_process_message (collab := demo_collab) demo_globals)
       demo_deliveries demo_world).
Proof.
  split; [exact demo_world_listings_in_step|].
  apply (link_consumer_keeps_listings_in_step (collab := demo_collab)).
  exact demo_world_listings_in_step.
Defined.

Lemma link_vote_reaches_its_queues_witness :
  let msg := vote_msg 1 "t3_a" DirUp in
  let r := link_process_message (collab := demo_collab) demo_globals msg demo_world in
  committed r.2 = true ∧
  ∃ user link vote,
    resolve msg demo_world = Some (user, link) ∧
    new_vote user link msg demo_world = Some vote ∧
    (∀ name : string,
       queue r.1.2 name =
         queue demo_world name ++
         if eligible (collab := demo_collab) vote link &&
            bool_decide (name = author_queue_name demo_globals link ∨
                         name = subreddit_queue_name demo_globals link ∨
                         (domain_permutations (Collab := demo_collab) (Thing.url link) ≠ [] ∧
                          name = domain_queue_name (collab := demo_collab) demo_globals
                                   (Thing.url link)))
         then [BName (Thing._fullname link)] else []) ∧
    author_queue_name demo_globals link ≠ subreddit_queue_name demo_globals link ∧
    author_queue_name demo_globals link
      ≠ domain_queue_name (collab := demo_collab) demo_globals (Thing.url link) ∧
    subreddit_queue_name demo_globals link
      ≠ domain_queue_name (collab := demo_collab) demo_globals (Thing.url link).
Proof.
  intros msg r. split; [by vm_compute|].
  apply (link_vote_reaches_its_queues (collab := demo_collab)). by vm_compute.
Defined.

Lemma later_intent_overwrites_witness :
  let w1 :=
    (update_vote_lookups (collab := demo_collab) demo_globals alice link_a DirUp
       demo_world).1.2 in
  let w2 :=
    (update_vote_lookups (collab := demo_collab) demo_globals alice link_a DirDown w1).1.2 in
  let key := prequeued_vote_key alice link_a in
  cache_down demo_world = false ∧
  gencache w2 !! key
    = Some (serialize_direction (Collab := demo_collab) DirDown,
            int_total_seconds (vote_queue_grace_period demo_globals) + 1) ∧
  (∀ key', key' ≠ key → gencache w2 !! key' = gencache demo_world !! key') ∧
  votes w2 = votes demo_world ∧ queues w2 = queues demo_world ∧
  listings w2 = listings demo_world.
Proof.
  intros w1 w2 key. split; [done|].
  by apply (later_intent_overwrites (collab := demo_collab)).
Defined.

Lemma cast_vote_is_recorded_witness :
  let request := {| ip := Some "10.0.0.1"%string; now := 42 |} in
  let msg := cast_payload (collab := demo_collab) demo_globals request alice link_a DirDown ∅ in
  let w1 :=
    (cast_vote (collab := demo_collab) demo_globals request alice link_a DirDown ∅
       demo_world).1.2 in
  let r := vote_process_message (collab := demo_collab) demo_globals KLink msg w1 in
  cache_down demo_world = false ∧
  min_timestamp ≤ now request ≤ max_timestamp ∧
  accounts demo_world !! Account._id alice = Some alice ∧
  things demo_world !! Thing._fullname link_a = Some link_a ∧
  is_votable (Thing.cls link_a) = true ∧
  validate_vote_data (Collab := demo_collab) msg ≠ Some false ∧
  ("voting"%string, vote_lock_key alice link_a) ∉ held_locks demo_world ∧
  last (queue w1 (Thing.vote_queue_name link_a)) = Some (BVote msg) ∧
  committed r.2 = true ∧
  stored_direction r.1.2 (Account._id alice) (Thing._fullname link_a) = Some DirDown.
Proof.
  intros request msg w1 r.
  assert (("voting"%string, vote_lock_key alice link_a) ∉ held_locks demo_world)
    as Hfree by set_solver.
  split; [done|]. split; [by vm_compute|].
  split; [by vm_compute|]. split; [by vm_compute|]. split; [done|].
  split; [done|]. split; [exact Hfree|].
  apply (cast_vote_is_recorded (collab := demo_collab) demo_globals KLink request alice
           link_a DirDown ∅ demo_world); first [done|by vm_compute].
Defined.

Lemma batch_with_unknown_link_raises_witness :
  let msgs := ["t3_a"; "t3_zz"]%string in
  let failed := (Raise NotFound, demo_world, [EvByFullname (batch_names msgs)]) in
  "t3_zz"%string ∈ msgs ∧
  things demo_world !! "t3_zz"%string = None ∧
  author_process_message msgs demo_world = failed ∧
  subreddit_process_message msgs demo_world = failed ∧
  domain_process_message (collab := demo_collab) msgs demo_world = failed.
Proof.
  intros msgs failed.
  assert ("t3_zz"%string ∈ msgs) as Hin by set_solver.
  split; [exact Hin|]. split; [by vm_compute|].
  apply (batch_with_unknown_link_raises (collab := demo_collab) msgs demo_world "t3_zz");
    [exact Hin|by vm_compute].
Defined.

Lemma author_batch_lists_every_link_witness :
  let msgs := ["t3_a"; "t3_b"]%string in
  let r := author_process_message msgs demo_world in
  db_consistent demo_world ∧
  authors_on_file demo_world ∧
  (∀ n, n ∈ msgs → is_Some (things demo_world !! n)) ∧
  busy_queries demo_world = ∅ ∧
  r.1.1 = Normal () ∧
  ∀ n link sort,
    n ∈ msgs → things demo_world !! n = Some link → sort ∈ SORTS →
    n ∈ listing r.1.2 (get_submitted (Thing.author_id link) sort "all").
Proof.
  intros msgs r.
  split; [exact demo_world_consistent|]. split; [exact demo_world_authors_on_file|].
  split; [exact demo_batch_on_file|]. split; [done|].
  apply (author_batch_lists_every_link msgs demo_world); try done.
  - exact demo_world_consistent.
  - exact demo_world_authors_on_file.
  - exact demo_batch_on_file.
Defined.

Lemma subreddit_batch_lists_every_link_witness :
  let msgs := ["t3_a"; "t3_b"]%string in
  let r := subreddit_process_message msgs demo_world in
  db_consistent demo_world ∧
  subreddits_on_file demo_world ∧
  (∀ n, n ∈ msgs → is_Some (things demo_world !! n)) ∧
  busy_queries demo_world = ∅ ∧
  r.1.1 = Normal () ∧
  ∀ n link sort,
    n ∈ msgs → things demo_world !! n = Some link → sort ∈ SORTS →
    n ∈ listing r.1.2 (get_links (Thing.sr_id link) sort "all").
Proof.
  intros msgs r.
  split; [exact demo_world_consistent|]. split; [exact demo_world_subreddits_on_file|].
  split; [exact demo_batch_on_file|]. split; [done|].
  apply (subreddit_batch_lists_every_link msgs demo_world); try done.
  - exact demo_world_consistent.
  - exact demo_world_subreddits_on_file.
  - exact demo_batch_on_file.
Defined.

Lemma domain_batch_lists_every_permutation_witness :
  let msgs := ["t3_a"; "t3_b"]%string in
  let r := domain_process_message (collab := demo_collab) msgs demo_world in
  db_consistent demo_world ∧
  (∀ n, n ∈ msgs → is_Some (things demo_world !! n)) ∧
  busy_queries demo_world = ∅ ∧
  r.1.1 = Normal () ∧
  ∀ n link domain sort,
    n ∈ msgs → things demo_world !! n = Some link →
    domain ∈ domain_permutations (Collab := demo_collab) (Thing.url link) →
    sort ∈ SORTS →
    n ∈ listing r.1.2 (get_domain_links domain sort "all").
Proof.
  intros msgs r.
  split; [exact demo_world_consistent|].
  split; [exact demo_batch_on_file|]. split; [done|].
  apply (domain_batch_lists_every_permutation (collab := demo_collab) msgs demo_world);
    try done.
  - exact demo_world_consistent.
  - exact demo_batch_on_file.
Defined.

Lemma comment_vote_updates_author_listings_witness :
  let msg := vote_msg 1 "t1_c" DirUp in
  let r := comment_process_message (collab := demo_collab) demo_globals msg demo_world in
  committed r.2 = true ∧
  authors_on_file demo_world ∧
  busy_queries demo_world = ∅ ∧
  ∃ user comment vote author,
    resolve msg demo_world = Some (user, comment) ∧
    new_vote user comment msg demo_world = Some vote ∧
    accounts demo_world !! Thing.author_id comment = Some author ∧
    (eligible (collab := demo_collab) vote comment = true →
     ∀ sort, sort ∈ SORTS →
       Thing._fullname comment
         ∈ listing r.1.2 (get_comments (Account._id author) sort "all")) ∧
    (eligible (collab := demo_collab) vote comment = false →
     r.1.2 = commit_world vote demo_world).
Proof.
  intros msg r. split; [by vm_compute|].
  split; [exact demo_world_authors_on_file|]. split; [done|].
  apply (comment_vote_updates_author_listings (collab := demo_collab) demo_globals msg
           demo_world); [by vm_compute|exact demo_world_authors_on_file|done].
Defined.

Lemma zero_update_period_raises_after_commit_witness :
  let msg := vote_msg 1 "t1_c" DirUp in
  let r :=
    comment_process_message (collab := demo_collab) zero_period_globals msg demo_world in
  committed r.2 = true ∧
  authors_on_file demo_world ∧
  busy_queries demo_world = ∅ ∧
  r.1.1 = Raise ZeroDivisionError ∧
  ∃ user comment vote,
    resolve msg demo_world = Some (user, comment) ∧
    new_vote user comment msg demo_world = Some vote ∧
    votes r.1.2 !! (Account._id user, Thing._fullname comment) = Some vote ∧
    r.1.1 =
      (if eligible (collab := demo_collab) vote comment
          && negb (Thing.num_votes comment
                   <=? comment_vote_update_threshold zero_period_globals)
          && (comment_vote_update_period zero_period_globals =? 0)
       then Raise ZeroDivisionError else Normal ()).
Proof.
  intros msg r. split; [by vm_compute|].
  split; [exact demo_world_authors_on_file|]. split; [done|].
  split; [by vm_compute|].
  apply (zero_update_period_raises_after_commit (collab := demo_collab)
           zero_period_globals msg demo_world);
    [by vm_compute|exact demo_world_authors_on_file|done].
Defined.
